(** * SPADE autoencoder-KL (monai/networks/nets/spade_autoencoderkl.py)

    A shallow embedding of the three classes of the file -- [SPADEResBlock],
    [SPADEDecoder] and [SPADEAutoencoderKL] -- and the properties of their
    construction and of their forward passes.

    - Python integers are [Z]; [range n] runs [Z.to_nat n] times.
    - A Python exception is a value of [exn]; code that can raise lives in
      the [result] monad.
    - The classes the file imports (Convolution, SPADE, Upsample,
      SpatialAttentionBlock, GroupNorm, Encoder) are not defined in it. An
      object of such a class is recorded with the arguments this file hands
      to its constructor. Every constructor of this file is written twice:
      [init] is the object [__init__] assembles, and [init_with] also runs
      the imported constructors, which may raise and stay arbitrary
      ([constructors]).
    - What the imported modules and the torch functions compute are the
      fields of the interface [Torch]: the forward passes are written once
      over it and then read at three instances, over real numbers, over
      floating-point elements with their NaN and infinities, and over
      shapes. *)

From Stdlib Require Import ZArith String Bool QArith Lia List.
From Stdlib Require Import Qround Reals Lra.
Import ListNotations.
Open Scope Z_scope.

(** ** Exceptions *)

Inductive exn : Type :=
| ValueError (msg : string)
| IndexError
| ZeroDivisionError
| UnboundLocalError
| TypeError.

Inductive result (A : Type) : Type :=
| Ok (a : A)
| Raise (e : exn).

Arguments Ok {A} a.
Arguments Raise {A} e.

Definition bind {A B : Type} (c : result A) (k : A -> result B) : result B :=
  match c with
  | Ok a => k a
  | Raise e => Raise e
  end.

Notation "x <- c ;; k" := (bind c (fun x => k))
  (at level 61, c at next level, right associativity).

Definition raises {A : Type} (c : result A) : Prop :=
  exists e, c = Raise e.

Definition is_ok {A : Type} (c : result A) : bool :=
  match c with Ok _ => true | Raise _ => false end.

(** [l[i]] for a non-negative index. *)
Definition getitem {A : Type} (l : list A) (i : nat) : result A :=
  match nth_error l i with
  | Some a => Ok a
  | None => Raise IndexError
  end.

(** [a % b] on Python integers: the sign of the divisor, as [Z.modulo]. *)
Definition py_mod (a b : Z) : result Z :=
  if b =? 0 then Raise ZeroDivisionError else Ok (a mod b).

(** [for x in l: s = body(x, s)]. *)
Fixpoint for_each {A S : Type} (l : list A) (body : A -> S -> result S) (s : S)
  : result S :=
  match l with
  | [] => Ok s
  | x :: l' => s' <- body x s ;; for_each l' body s'
  end.

(** [range(n)]. *)
Definition range (n : Z) : list nat := seq 0 (Z.to_nat n).

(** [len(l)]. *)
Definition len {A : Type} (l : list A) : Z := Z.of_nat (List.length l).

(** ** The modules the file imports

    Each is recorded with the arguments this file passes to its
    constructor; what it computes is a field of [Torch] below. *)

Record Convolution : Type := {
  conv_spatial_dims : Z;
  conv_in_channels : Z;
  conv_out_channels : Z;
  conv_strides : Z;
  conv_kernel_size : Z;
  conv_padding : Z;
  conv_conv_only : bool
}.

Record SPADE : Type := {
  spade_label_nc : Z;
  spade_norm_nc : option Z;
  spade_norm : string;
  spade_num_groups : Z;
  spade_affine : bool;
  spade_eps : Q;
  spade_hidden_channels : Z;
  spade_kernel_size : Z;
  spade_spatial_dims : Z
}.

Record SpatialAttentionBlock : Type := {
  attn_spatial_dims : Z;
  attn_num_channels : Z;
  attn_norm_num_groups : Z;
  attn_norm_eps : Q
}.

Record Upsample : Type := {
  up_spatial_dims : Z;
  up_mode : string;
  up_in_channels : Z;
  up_out_channels : Z;
  up_interp_mode : string;
  up_scale_factor : Q;
  up_post_conv : Convolution;
  up_align_corners : option bool
}.

Record GroupNorm : Type := {
  gn_num_groups : Z;
  gn_num_channels : Z;
  gn_eps : Q;
  gn_affine : bool
}.

(** The arguments [SPADEAutoencoderKL.__init__] hands to [Encoder]. *)
Record Encoder : Type := {
  enc_spatial_dims : Z;
  enc_in_channels : Z;
  enc_channels : list Z;
  enc_out_channels : Z;
  enc_num_res_blocks : list Z;
  enc_norm_num_groups : Z;
  enc_norm_eps : Q;
  enc_attention_levels : list bool;
  enc_with_nonlocal_attn : bool
}.

(** What the constructor of each imported class does with the arguments
    it is handed: it returns, or it raises. None of these classes is defined
    in this file, so what their constructors accept stays arbitrary. *)
Record constructors : Type := {
  Convolution_init : Convolution -> result unit;
  SPADE_init : SPADE -> result unit;
  SpatialAttentionBlock_init : SpatialAttentionBlock -> result unit;
  Upsample_init : Upsample -> result unit;
  GroupNorm_init : GroupNorm -> result unit;
  Encoder_init : Encoder -> result unit
}.

(** [C(args)] for an imported class [C]: the object, once [C.__init__] has
    returned. *)
Definition construct {A : Type} (init : A -> result unit) (args : A) : result A :=
  _ <- init args ;; Ok args.

(** The constructors that return on every argument. *)
Definition accepting : constructors := {|
  Convolution_init := fun _ => Ok tt;
  SPADE_init := fun _ => Ok tt;
  SpatialAttentionBlock_init := fun _ => Ok tt;
  Upsample_init := fun _ => Ok tt;
  GroupNorm_init := fun _ => Ok tt;
  Encoder_init := fun _ => Ok tt
|}.

(** ** SPADEResBlock.__init__ *)

Module SPADEResBlock.

(** [nin_shortcut] is a [Convolution] or an [nn.Identity]. *)
Inductive shortcut : Type :=
| ShortcutConvolution (c : Convolution)
| ShortcutIdentity.

Record t : Type := {
  in_channels : Z;
  out_channels : Z;
  norm1 : SPADE;
  conv1 : Convolution;
  norm2 : SPADE;
  conv2 : Convolution;
  nin_shortcut : shortcut
}.

(** The block [__init__] assembles, every imported sub-module recorded with
    the arguments it is built from; whether [SPADE] and [Convolution] accept
    these arguments is left to [init_with]. [out_channels] is [None] for
    Python's [None]. *)
Definition init (spatial_dims in_channels norm_num_groups : Z) (norm_eps : Q)
    (out_channels : option Z) (label_nc spade_intermediate_channels : Z) : t :=
  let self_in_channels := in_channels in
  let self_out_channels :=
    match out_channels with None => in_channels | Some c => c end in
  let norm1 := {|
    spade_label_nc := label_nc;
    spade_norm_nc := Some in_channels;
    spade_norm := "GROUP";
    spade_num_groups := norm_num_groups;
    spade_affine := false;
    spade_eps := norm_eps;
    spade_hidden_channels := spade_intermediate_channels;
    spade_kernel_size := 3;
    spade_spatial_dims := spatial_dims |} in
  let conv1 := {|
    conv_spatial_dims := spatial_dims;
    conv_in_channels := self_in_channels;
    conv_out_channels := self_out_channels;
    conv_strides := 1;
    conv_kernel_size := 3;
    conv_padding := 1;
    conv_conv_only := true |} in
  let norm2 := {|
    spade_label_nc := label_nc;
    spade_norm_nc := out_channels;
    spade_norm := "GROUP";
    spade_num_groups := norm_num_groups;
    spade_affine := false;
    spade_eps := norm_eps;
    spade_hidden_channels := spade_intermediate_channels;
    spade_kernel_size := 3;
    spade_spatial_dims := spatial_dims |} in
  let conv2 := {|
    conv_spatial_dims := spatial_dims;
    conv_in_channels := self_out_channels;
    conv_out_channels := self_out_channels;
    conv_strides := 1;
    conv_kernel_size := 3;
    conv_padding := 1;
    conv_conv_only := true |} in
  let nin_shortcut :=
    if negb (self_in_channels =? self_out_channels) then
      ShortcutConvolution {|
        conv_spatial_dims := spatial_dims;
        conv_in_channels := self_in_channels;
        conv_out_channels := self_out_channels;
        conv_strides := 1;
        conv_kernel_size := 1;
        conv_padding := 0;
        conv_conv_only := true |}
    else ShortcutIdentity in
  {| in_channels := self_in_channels;
     out_channels := self_out_channels;
     norm1 := norm1;
     conv1 := conv1;
     norm2 := norm2;
     conv2 := conv2;
     nin_shortcut := nin_shortcut |}.

(** [__init__] with the constructors of [SPADE] and [Convolution] run, in
    the order of the source: the first one that raises ends the
    construction. *)
Definition init_with (K : constructors)
    (spatial_dims in_channels norm_num_groups : Z) (norm_eps : Q)
    (out_channels : option Z) (label_nc spade_intermediate_channels : Z)
  : result t :=
  let self_in_channels := in_channels in
  let self_out_channels :=
    match out_channels with None => in_channels | Some c => c end in
  norm1 <- construct (SPADE_init K) {|
    spade_label_nc := label_nc;
    spade_norm_nc := Some in_channels;
    spade_norm := "GROUP";
    spade_num_groups := norm_num_groups;
    spade_affine := false;
    spade_eps := norm_eps;
    spade_hidden_channels := spade_intermediate_channels;
    spade_kernel_size := 3;
    spade_spatial_dims := spatial_dims |} ;;
  conv1 <- construct (Convolution_init K) {|
    conv_spatial_dims := spatial_dims;
    conv_in_channels := self_in_channels;
    conv_out_channels := self_out_channels;
    conv_strides := 1;
    conv_kernel_size := 3;
    conv_padding := 1;
    conv_conv_only := true |} ;;
  norm2 <- construct (SPADE_init K) {|
    spade_label_nc := label_nc;
    spade_norm_nc := out_channels;
    spade_norm := "GROUP";
    spade_num_groups := norm_num_groups;
    spade_affine := false;
    spade_eps := norm_eps;
    spade_hidden_channels := spade_intermediate_channels;
    spade_kernel_size := 3;
    spade_spatial_dims := spatial_dims |} ;;
  conv2 <- construct (Convolution_init K) {|
    conv_spatial_dims := spatial_dims;
    conv_in_channels := self_out_channels;
    conv_out_channels := self_out_channels;
    conv_strides := 1;
    conv_kernel_size := 3;
    conv_padding := 1;
    conv_conv_only := true |} ;;
  nin_shortcut <-
    (if negb (self_in_channels =? self_out_channels) then
       c <- construct (Convolution_init K) {|
         conv_spatial_dims := spatial_dims;
         conv_in_channels := self_in_channels;
         conv_out_channels := self_out_channels;
         conv_strides := 1;
         conv_kernel_size := 1;
         conv_padding := 0;
         conv_conv_only := true |} ;;
       Ok (ShortcutConvolution c)
     else Ok ShortcutIdentity) ;;
  Ok {| in_channels := self_in_channels;
        out_channels := self_out_channels;
        norm1 := norm1;
        conv1 := conv1;
        norm2 := norm2;
        conv2 := conv2;
        nin_shortcut := nin_shortcut |}.

End SPADEResBlock.

(** An [nn.Module] of the decoder's [ModuleList]. *)
Inductive Module_ : Type :=
| MConvolution (c : Convolution)
| MSPADEResBlock (b : SPADEResBlock.t)
| MSpatialAttentionBlock (a : SpatialAttentionBlock)
| MUpsample (u : Upsample)
| MGroupNorm (g : GroupNorm).

(** [isinstance(block, SPADEResBlock)]. *)
Definition isinstance_SPADEResBlock (block : Module_) : bool :=
  match block with MSPADEResBlock _ => true | _ => false end.

(** ** SPADEDecoder.__init__ *)

Module SPADEDecoder.

Record t : Type := {
  spatial_dims : Z;
  channels : list Z;
  in_channels : Z;
  out_channels : Z;
  num_res_blocks : list Z;
  norm_num_groups : Z;
  norm_eps : Q;
  attention_levels : list bool;
  label_nc : Z;
  blocks : list Module_
}.

Section Init.

Variable K : constructors.

Variables (spatial_dims : Z) (channels : list Z) (in_channels out_channels : Z)
  (num_res_blocks : list Z) (norm_num_groups : Z) (norm_eps : Q)
  (attention_levels : list bool) (label_nc : Z) (with_nonlocal_attn : bool)
  (spade_intermediate_channels : Z).

Definition conv3 (cin cout : Z) : Convolution := {|
  conv_spatial_dims := spatial_dims;
  conv_in_channels := cin;
  conv_out_channels := cout;
  conv_strides := 1;
  conv_kernel_size := 3;
  conv_padding := 1;
  conv_conv_only := true |}.

Definition res_block (cin cout : Z) : Module_ :=
  MSPADEResBlock
    (SPADEResBlock.init spatial_dims cin norm_num_groups norm_eps (Some cout)
       label_nc spade_intermediate_channels).

Definition attn_block (c : Z) : Module_ :=
  MSpatialAttentionBlock {|
    attn_spatial_dims := spatial_dims;
    attn_num_channels := c;
    attn_norm_num_groups := norm_num_groups;
    attn_norm_eps := norm_eps |}.

Definition upsample_block (c : Z) : Module_ :=
  MUpsample {|
    up_spatial_dims := spatial_dims;
    up_mode := "nontrainable";
    up_in_channels := c;
    up_out_channels := c;
    up_interp_mode := "nearest";
    up_scale_factor := 2%Q;
    up_post_conv := conv3 c c;
    up_align_corners := None |}.

Definition group_norm (c : Z) : Module_ :=
  MGroupNorm {|
    gn_num_groups := norm_num_groups;
    gn_num_channels := c;
    gn_eps := norm_eps;
    gn_affine := true |}.

(** The local variables the loops assign: [blocks], [block_in_ch] (unbound
    until the first level) and [block_out_ch]. *)
Record locals : Type := {
  l_blocks : list Module_;
  l_block_in_ch : option Z;
  l_block_out_ch : Z
}.

(** [block_in_ch] read as a value. *)
Definition read_block_in_ch (s : locals) : result Z :=
  match l_block_in_ch s with
  | Some c => Ok c
  | None => Raise UnboundLocalError
  end.

(** The body of [for _ in range(reversed_num_res_blocks[i])]. *)
Definition res_body (reversed_attention_levels : list bool) (i : nat)
    (_ : nat) (s : locals) : result locals :=
  block_in_ch <- read_block_in_ch s ;;
  let blocks := l_blocks s ++ [res_block block_in_ch (l_block_out_ch s)] in
  let block_in_ch := l_block_out_ch s in
  a <- getitem reversed_attention_levels i ;;
  let blocks := if a : bool then blocks ++ [attn_block block_in_ch] else blocks in
  Ok {| l_blocks := blocks;
        l_block_in_ch := Some block_in_ch;
        l_block_out_ch := l_block_out_ch s |}.

(** The body of [for i in range(len(reversed_block_out_channels))]. *)
Definition level_body (reversed_block_out_channels : list Z)
    (reversed_attention_levels : list bool) (reversed_num_res_blocks : list Z)
    (i : nat) (s : locals) : result locals :=
  let block_in_ch := l_block_out_ch s in
  block_out_ch <- getitem reversed_block_out_channels i ;;
  let is_final_block := Z.of_nat i =? len channels - 1 in
  n <- getitem reversed_num_res_blocks i ;;
  s <- for_each (range n) (res_body reversed_attention_levels i)
         {| l_blocks := l_blocks s;
            l_block_in_ch := Some block_in_ch;
            l_block_out_ch := block_out_ch |} ;;
  if negb is_final_block then
    block_in_ch <- read_block_in_ch s ;;
    Ok {| l_blocks := l_blocks s ++ [upsample_block block_in_ch];
          l_block_in_ch := l_block_in_ch s;
          l_block_out_ch := l_block_out_ch s |}
  else Ok s.

(** The decoder [__init__] assembles, every block recorded with the
    arguments it is built from: of the ways construction can fail, [init]
    has the lookups of this file, and [init_with] below adds the
    constructors of the imported classes. *)
Definition init : result t :=
  let reversed_block_out_channels := rev channels in
  let blocks : list Module_ := [] in
  (* Initial convolution *)
  c0 <- getitem reversed_block_out_channels 0 ;;
  let blocks := blocks ++ [MConvolution (conv3 in_channels c0)] in
  (* Non-local attention block *)
  let blocks :=
    if with_nonlocal_attn then
      blocks ++ [res_block c0 c0] ++ [attn_block c0] ++ [res_block c0 c0]
    else blocks in
  let reversed_attention_levels := rev attention_levels in
  let reversed_num_res_blocks := rev num_res_blocks in
  block_out_ch <- getitem reversed_block_out_channels 0 ;;
  s <- for_each (range (len reversed_block_out_channels))
         (level_body reversed_block_out_channels reversed_attention_levels
            reversed_num_res_blocks)
         {| l_blocks := blocks;
            l_block_in_ch := None;
            l_block_out_ch := block_out_ch |} ;;
  block_in_ch <- read_block_in_ch s ;;
  let blocks := l_blocks s ++ [group_norm block_in_ch] in
  let blocks := blocks ++ [MConvolution (conv3 block_in_ch out_channels)] in
  Ok (Build_t spatial_dims channels in_channels out_channels num_res_blocks
        norm_num_groups norm_eps attention_levels label_nc blocks).

(** The same constructor with the imported constructors run. Each block
    is built where the source builds it, so that a constructor that raises
    ends the construction before the lookups that come after it. *)

Definition res_block_with (cin cout : Z) : result Module_ :=
  b <- SPADEResBlock.init_with K spatial_dims cin norm_num_groups norm_eps
         (Some cout) label_nc spade_intermediate_channels ;;
  Ok (MSPADEResBlock b).

Definition attn_block_with (c : Z) : result Module_ :=
  a <- construct (SpatialAttentionBlock_init K) {|
    attn_spatial_dims := spatial_dims;
    attn_num_channels := c;
    attn_norm_num_groups := norm_num_groups;
    attn_norm_eps := norm_eps |} ;;
  Ok (MSpatialAttentionBlock a).

Definition upsample_block_with (c : Z) : result Module_ :=
  post_conv <- construct (Convolution_init K) (conv3 c c) ;;
  u <- construct (Upsample_init K) {|
    up_spatial_dims := spatial_dims;
    up_mode := "nontrainable";
    up_in_channels := c;
    up_out_channels := c;
    up_interp_mode := "nearest";
    up_scale_factor := 2%Q;
    up_post_conv := post_conv;
    up_align_corners := None |} ;;
  Ok (MUpsample u).

Definition group_norm_with (c : Z) : result Module_ :=
  g <- construct (GroupNorm_init K) {|
    gn_num_groups := norm_num_groups;
    gn_num_channels := c;
    gn_eps := norm_eps;
    gn_affine := true |} ;;
  Ok (MGroupNorm g).

Definition res_body_with (reversed_attention_levels : list bool) (i : nat)
    (_ : nat) (s : locals) : result locals :=
  block_in_ch <- read_block_in_ch s ;;
  b <- res_block_with block_in_ch (l_block_out_ch s) ;;
  let blocks := l_blocks s ++ [b] in
  let block_in_ch := l_block_out_ch s in
  a <- getitem reversed_attention_levels i ;;
  blocks <-
    (if a : bool then
       m <- attn_block_with block_in_ch ;; Ok (blocks ++ [m])
     else Ok blocks) ;;
  Ok {| l_blocks := blocks;
        l_block_in_ch := Some block_in_ch;
        l_block_out_ch := l_block_out_ch s |}.

Definition level_body_with (reversed_block_out_channels : list Z)
    (reversed_attention_levels : list bool) (reversed_num_res_blocks : list Z)
    (i : nat) (s : locals) : result locals :=
  let block_in_ch := l_block_out_ch s in
  block_out_ch <- getitem reversed_block_out_channels i ;;
  let is_final_block := Z.of_nat i =? len channels - 1 in
  n <- getitem reversed_num_res_blocks i ;;
  s <- for_each (range n) (res_body_with reversed_attention_levels i)
         {| l_blocks := l_blocks s;
            l_block_in_ch := Some block_in_ch;
            l_block_out_ch := block_out_ch |} ;;
  if negb is_final_block then
    block_in_ch <- read_block_in_ch s ;;
    u <- upsample_block_with block_in_ch ;;
    Ok {| l_blocks := l_blocks s ++ [u];
          l_block_in_ch := l_block_in_ch s;
          l_block_out_ch := l_block_out_ch s |}
  else Ok s.

Definition init_with : result t :=
  let reversed_block_out_channels := rev channels in
  let blocks : list Module_ := [] in
  (* Initial convolution *)
  c0 <- getitem reversed_block_out_channels 0 ;;
  conv_in <- construct (Convolution_init K) (conv3 in_channels c0) ;;
  let blocks := blocks ++ [MConvolution conv_in] in
  (* Non-local attention block *)
  blocks <-
    (if with_nonlocal_attn then
       r1 <- res_block_with c0 c0 ;;
       a <- attn_block_with c0 ;;
       r2 <- res_block_with c0 c0 ;;
       Ok (blocks ++ [r1] ++ [a] ++ [r2])
     else Ok blocks) ;;
  let reversed_attention_levels := rev attention_levels in
  let reversed_num_res_blocks := rev num_res_blocks in
  block_out_ch <- getitem reversed_block_out_channels 0 ;;
  s <- for_each (range (len reversed_block_out_channels))
         (level_body_with reversed_block_out_channels reversed_attention_levels
            reversed_num_res_blocks)
         {| l_blocks := blocks;
            l_block_in_ch := None;
            l_block_out_ch := block_out_ch |} ;;
  block_in_ch <- read_block_in_ch s ;;
  g <- group_norm_with block_in_ch ;;
  let blocks := l_blocks s ++ [g] in
  conv_out <- construct (Convolution_init K) (conv3 block_in_ch out_channels) ;;
  let blocks := blocks ++ [MConvolution conv_out] in
  Ok (Build_t spatial_dims channels in_channels out_channels num_res_blocks
        norm_num_groups norm_eps attention_levels label_nc blocks).

End Init.

End SPADEDecoder.

(** ** SPADEAutoencoderKL.__init__ *)

(** Modelled from the spec: [ensure_tuple_rep] (monai.utils) is not under
    src/; a single count "is broadcast to the schedule length". *)
Definition ensure_tuple_rep (tup : Z) (dim : Z) : list Z :=
  repeat tup (Z.to_nat dim).

(** [any((out_channel % norm_num_groups) != 0 for out_channel in channels)]:
    the generator is consumed up to the first true element. *)
Fixpoint any_not_multiple (channels : list Z) (norm_num_groups : Z) : result bool :=
  match channels with
  | [] => Ok false
  | out_channel :: rest =>
      r <- py_mod out_channel norm_num_groups ;;
      if negb (r =? 0) then Ok true else any_not_multiple rest norm_num_groups
  end.

(** [num_res_blocks: Sequence[int] | int]. *)
Inductive int_or_seq : Type :=
| AnInt (n : Z)
| ASeq (l : list Z).

Module SPADEAutoencoderKL.

Record t : Type := {
  encoder : Encoder;
  decoder : SPADEDecoder.t;
  quant_conv_mu : Convolution;
  quant_conv_log_sigma : Convolution;
  post_quant_conv : Convolution;
  latent_channels : Z
}.

Section Init.

Variable K : constructors.

Variables (spatial_dims label_nc in_channels out_channels : Z)
  (num_res_blocks : int_or_seq) (channels : list Z) (attention_levels : list bool)
  (latent_channels : Z) (norm_num_groups : Z) (norm_eps : Q)
  (with_encoder_nonlocal_attn with_decoder_nonlocal_attn : bool)
  (spade_intermediate_channels : Z).

Definition conv1x1 : Convolution := {|
  conv_spatial_dims := spatial_dims;
  conv_in_channels := latent_channels;
  conv_out_channels := latent_channels;
  conv_strides := 1;
  conv_kernel_size := 1;
  conv_padding := 0;
  conv_conv_only := true |}.

(** Lines 337-351: the three checks, in the order of the source; the value
    is [num_res_blocks] as a sequence. *)
Definition validate : result (list Z) :=
  (* All number of channels should be multiple of num_groups *)
  bad <- any_not_multiple channels norm_num_groups ;;
  if bad : bool then
    Raise (ValueError "SPADEAutoencoderKL expects all channels being multiple of norm_num_groups")
  else
  if negb (len channels =? len attention_levels) then
    Raise (ValueError "SPADEAutoencoderKL expects channels being same size of attention_levels")
  else
  let num_res_blocks :=
    match num_res_blocks with
    | AnInt n => ensure_tuple_rep n (len channels)
    | ASeq l => l
    end in
  if negb (len num_res_blocks =? len channels) then
    Raise (ValueError "`num_res_blocks` should be a single integer or a tuple of integers with the same length as `channels`.")
  else Ok num_res_blocks.

(** The model [__init__] assembles once the checks have passed; [init_with]
    below also runs the constructors of [Encoder] and [Convolution] and
    those inside the decoder. *)
Definition init : result t :=
  num_res_blocks <- validate ;;
  let encoder := {|
    enc_spatial_dims := spatial_dims;
    enc_in_channels := in_channels;
    enc_channels := channels;
    enc_out_channels := latent_channels;
    enc_num_res_blocks := num_res_blocks;
    enc_norm_num_groups := norm_num_groups;
    enc_norm_eps := norm_eps;
    enc_attention_levels := attention_levels;
    enc_with_nonlocal_attn := with_encoder_nonlocal_attn |} in
  decoder <- SPADEDecoder.init spatial_dims channels latent_channels out_channels
               num_res_blocks norm_num_groups norm_eps attention_levels label_nc
               with_decoder_nonlocal_attn spade_intermediate_channels ;;
  Ok (Build_t encoder decoder conv1x1 conv1x1 conv1x1 latent_channels).

(** The same constructor with the imported constructors run, in the order
    of the source: the checks, [Encoder], [SPADEDecoder], and the three 1x1
    convolutions. *)

Definition init_with : result t :=
  num_res_blocks <- validate ;;
  encoder <- construct (Encoder_init K) {|
    enc_spatial_dims := spatial_dims;
    enc_in_channels := in_channels;
    enc_channels := channels;
    enc_out_channels := latent_channels;
    enc_num_res_blocks := num_res_blocks;
    enc_norm_num_groups := norm_num_groups;
    enc_norm_eps := norm_eps;
    enc_attention_levels := attention_levels;
    enc_with_nonlocal_attn := with_encoder_nonlocal_attn |} ;;
  decoder <- SPADEDecoder.init_with K spatial_dims channels latent_channels
               out_channels num_res_blocks norm_num_groups norm_eps
               attention_levels label_nc with_decoder_nonlocal_attn
               spade_intermediate_channels ;;
  quant_conv_mu <- construct (Convolution_init K) conv1x1 ;;
  quant_conv_log_sigma <- construct (Convolution_init K) conv1x1 ;;
  post_quant_conv <- construct (Convolution_init K) conv1x1 ;;
  Ok (Build_t encoder decoder quant_conv_mu quant_conv_log_sigma post_quant_conv
        latent_channels).

End Init.

End SPADEAutoencoderKL.

(** ** The substrate

    Learned parameters live in a [state_dict]: a module reads the entries
    under its own prefix, so two modules with equal arguments (the 1x1
    convolutions of the top-level model) still compute different functions. *)

Inductive key : Type :=
| Attr (name : string)
| Item (i : nat).

Definition state_dict (Params : Type) : Type := list key -> Params.

(** The entries of [sd] under the prefix [k]. *)
Definition sub {Params : Type} (k : key) (sd : state_dict Params) : state_dict Params :=
  fun p => sd (k :: p).

(** What this file uses of torch and of the monai blocks: the pointwise
    functions, the noise source with its generator state, and the forward
    pass of every imported module. Scalars ([-30.0], [20.0], [2]) are passed
    as integers. *)
Class Torch (Tensor : Type) : Type := {
  Params : Type;
  Generator : Type;
  torch_add : Tensor -> Tensor -> Tensor;
  torch_mul : Tensor -> Tensor -> Tensor;
  torch_div : Tensor -> Z -> Tensor;
  torch_clamp : Tensor -> Z -> Z -> Tensor;
  torch_exp : Tensor -> Tensor;
  F_silu : Tensor -> Tensor;
  torch_randn_like : Tensor -> Generator -> Tensor * Generator;
  Convolution_forward : Convolution -> state_dict Params -> Tensor -> Tensor;
  SPADE_forward : SPADE -> state_dict Params -> Tensor -> Tensor -> Tensor;
  SpatialAttentionBlock_forward :
    SpatialAttentionBlock -> state_dict Params -> Tensor -> Tensor;
  Upsample_forward : Upsample -> state_dict Params -> Tensor -> Tensor;
  GroupNorm_forward : GroupNorm -> state_dict Params -> Tensor -> Tensor;
  Encoder_forward : Encoder -> state_dict Params -> Tensor -> Tensor
}.

(** ** Forward passes *)

Section Forward.

Context {Tensor : Type} {torch : Torch Tensor}.

Local Notation "'sd_t'" := (state_dict Params).

(** [self.nin_shortcut(x)]. *)
Definition shortcut_forward (s : SPADEResBlock.shortcut) (sd : sd_t) (x : Tensor)
  : Tensor :=
  match s with
  | SPADEResBlock.ShortcutConvolution c => Convolution_forward c sd x
  | SPADEResBlock.ShortcutIdentity => x
  end.

(** [SPADEResBlock.forward]. *)
Definition SPADEResBlock_forward (self : SPADEResBlock.t) (sd : sd_t)
    (x seg : Tensor) : Tensor :=
  let h := x in
  let h := SPADE_forward (SPADEResBlock.norm1 self) (sub (Attr "norm1") sd) h seg in
  let h := F_silu h in
  let h := Convolution_forward (SPADEResBlock.conv1 self) (sub (Attr "conv1") sd) h in
  let h := SPADE_forward (SPADEResBlock.norm2 self) (sub (Attr "norm2") sd) h seg in
  let h := F_silu h in
  let h := Convolution_forward (SPADEResBlock.conv2 self) (sub (Attr "conv2") sd) h in
  let x := shortcut_forward (SPADEResBlock.nin_shortcut self)
             (sub (Attr "nin_shortcut") sd) x in
  torch_add x h.

(** One turn of the loop of [SPADEDecoder.forward]: the [isinstance] branch
    calls the block with [(x, seg)], the other classes are called with [x]. *)
Definition call_block (block : Module_) (sd : sd_t) (x seg : Tensor) : Tensor :=
  match block with
  | MSPADEResBlock b => SPADEResBlock_forward b sd x seg
  | MConvolution c => Convolution_forward c sd x
  | MSpatialAttentionBlock a => SpatialAttentionBlock_forward a sd x
  | MUpsample u => Upsample_forward u sd x
  | MGroupNorm g => GroupNorm_forward g sd x
  end.

(** [for block in blocks], the block at index [i] reading [sd] under [i]. *)
Fixpoint run_blocks (i : nat) (blocks : list Module_) (sd : sd_t) (x seg : Tensor)
  : Tensor :=
  match blocks with
  | [] => x
  | block :: rest =>
      let x := call_block block (sub (Item i) sd) x seg in
      run_blocks (S i) rest sd x seg
  end.

(** [SPADEDecoder.forward]. *)
Definition SPADEDecoder_forward (self : SPADEDecoder.t) (sd : sd_t)
    (x seg : Tensor) : Tensor :=
  run_blocks 0 (SPADEDecoder.blocks self) (sub (Attr "blocks") sd) x seg.

(** The methods of [SPADEAutoencoderKL] run in the state monad of torch's
    random generator: a computation takes the generator state and returns
    its value with the state it leaves. *)
Definition M (A : Type) : Type := Generator -> A * Generator.

Definition ret {A : Type} (a : A) : M A := fun g => (a, g).

Definition mbind {A B : Type} (c : M A) (k : A -> M B) : M B :=
  fun g => let (a, g') := c g in k a g'.

Notation "x <~ c ;; k" := (mbind c (fun x => k))
  (at level 61, c at next level, right associativity).

Section Methods.

Variables (self : SPADEAutoencoderKL.t) (sd : sd_t).

Definition encode (x : Tensor) : M (Tensor * Tensor) :=
  let h := Encoder_forward (SPADEAutoencoderKL.encoder self) (sub (Attr "encoder") sd) x in
  let z_mu :=
    Convolution_forward (SPADEAutoencoderKL.quant_conv_mu self)
      (sub (Attr "quant_conv_mu") sd) h in
  let z_log_var :=
    Convolution_forward (SPADEAutoencoderKL.quant_conv_log_sigma self)
      (sub (Attr "quant_conv_log_sigma") sd) h in
  let z_log_var := torch_clamp z_log_var (-30) 20 in
  let z_sigma := torch_exp (torch_div z_log_var 2) in
  ret (z_mu, z_sigma).

Definition sampling (z_mu z_sigma : Tensor) : M Tensor :=
  eps <~ torch_randn_like z_sigma ;;
  let z_vae := torch_add z_mu (torch_mul eps z_sigma) in
  ret z_vae.

Definition decode (z seg : Tensor) : M Tensor :=
  let z :=
    Convolution_forward (SPADEAutoencoderKL.post_quant_conv self)
      (sub (Attr "post_quant_conv") sd) z in
  let dec :=
    SPADEDecoder_forward (SPADEAutoencoderKL.decoder self) (sub (Attr "decoder") sd)
      z seg in
  ret dec.

Definition reconstruct (x seg : Tensor) : M Tensor :=
  r <~ encode x ;;
  let z_mu := fst r in
  reconstruction <~ decode z_mu seg ;;
  ret reconstruction.

Definition forward (x seg : Tensor) : M (Tensor * Tensor * Tensor) :=
  r <~ encode x ;;
  let z_mu := fst r in
  let z_sigma := snd r in
  z <~ sampling z_mu z_sigma ;;
  reconstruction <~ decode z seg ;;
  ret (reconstruction, z_mu, z_sigma).

Definition encode_stage_2_inputs (x : Tensor) : M Tensor :=
  r <~ encode x ;;
  let z_mu := fst r in
  let z_sigma := snd r in
  z <~ sampling z_mu z_sigma ;;
  ret z.

Definition decode_stage_2_outputs (z seg : Tensor) : M Tensor :=
  image <~ decode z seg ;;
  ret image.

End Methods.

End Forward.

(** ** Values: tensors over the reals

    A tensor is read position by position: [Pos] are the positions of the
    common shape of the operands, and the pointwise functions of torch act
    at each position. The learned modules and the noise source stay
    arbitrary. Here an element is read as the real number it denotes, with
    no rounding, infinity or NaN: this reading serves for the shape of a
    formula and for the order of values; what depends on the special values
    of floating-point numbers is stated over [FloatTorch] below. *)

(** The logistic function. *)
Definition sigmoid (v : R) : R := (1 / (1 + exp (- v)))%R.

(** [torch.clamp] at one element: [min(max(v, lo), hi)]. *)
Definition clamp (v lo hi : R) : R := Rmin (Rmax v lo) hi.

Section Values.

Variables (Pos P G : Type).

Definition RTensor : Type := Pos -> R.

Variables
  (randn_like : RTensor -> G -> RTensor * G)
  (convolution : Convolution -> state_dict P -> RTensor -> RTensor)
  (spade : SPADE -> state_dict P -> RTensor -> RTensor -> RTensor)
  (attention : SpatialAttentionBlock -> state_dict P -> RTensor -> RTensor)
  (upsample : Upsample -> state_dict P -> RTensor -> RTensor)
  (groupnorm : GroupNorm -> state_dict P -> RTensor -> RTensor)
  (encoder_net : Encoder -> state_dict P -> RTensor -> RTensor).

(** [F.silu]: [x * sigmoid(x)] at each position. *)
Definition silu (t : RTensor) : RTensor := fun p => (t p * sigmoid (t p))%R.

(** [torch.zeros]. *)
Definition zeros : RTensor := fun _ => 0%R.

Definition RealTorch : Torch RTensor := {|
  Params := P;
  Generator := G;
  torch_add := fun a b p => (a p + b p)%R;
  torch_mul := fun a b p => (a p * b p)%R;
  torch_div := fun a n p => (a p / IZR n)%R;
  torch_clamp := fun a lo hi p => clamp (a p) (IZR lo) (IZR hi);
  torch_exp := fun a p => exp (a p);
  F_silu := silu;
  torch_randn_like := randn_like;
  Convolution_forward := convolution;
  SPADE_forward := spade;
  SpatialAttentionBlock_forward := attention;
  Upsample_forward := upsample;
  GroupNorm_forward := groupnorm;
  Encoder_forward := encoder_net
|}.

End Values.

Arguments silu {Pos} t.
Arguments zeros {Pos}.
Arguments RealTorch {Pos P G}.

(** ** Values: tensors over floating-point elements

    The tensors of torch hold floating-point numbers: besides the finite
    values an element can be one of the two infinities or NaN, and a result
    is rounded to the element type and overflows to an infinity. *)

Inductive fval : Type :=
| Finite (r : R)
| PosInf
| NegInf
| NaN.

(** [torch.clamp] at one element, [min(max(v, lo), hi)]: an infinity is cut
    to the bound on its side, and a NaN is passed through. *)
Definition fclamp (v : fval) (lo hi : R) : fval :=
  match v with
  | Finite r => Finite (clamp r lo hi)
  | PosInf => Finite hi
  | NegInf => Finite (Rmin lo hi)
  | NaN => NaN
  end.

Section FloatValues.

Variables (Pos P G : Type).

(** The element type: [round] takes a real number to the nearest value of
    the type, and [largest] is its largest finite value. *)
Variables (round : R -> R) (largest : R).

(** The element a real result is delivered as: rounded, or an infinity
    when the rounded value is beyond [largest]. *)
Definition rounded (r : R) : fval :=
  if Rlt_dec largest (round r) then PosInf
  else if Rlt_dec (round r) (- largest) then NegInf
  else Finite (round r).

(** [v / n] at one element, for a Python integer [n]. *)
Definition fdiv (v : fval) (n : Z) : fval :=
  match v with
  | Finite r =>
      if n =? 0 then
        if Rlt_dec 0 r then PosInf else if Rlt_dec r 0 then NegInf else NaN
      else rounded (r / IZR n)
  | PosInf => if n <? 0 then NegInf else PosInf
  | NegInf => if n <? 0 then PosInf else NegInf
  | NaN => NaN
  end.

(** [torch.exp] at one element. *)
Definition fexp (v : fval) : fval :=
  match v with
  | Finite r => rounded (exp r)
  | PosInf => PosInf
  | NegInf => Finite 0
  | NaN => NaN
  end.

Definition FTensor : Type := Pos -> fval.

(** Addition, multiplication and [F.silu] at one element, the noise source
    and the learned modules stay arbitrary. *)
Variables
  (add mul : fval -> fval -> fval)
  (silu_elem : fval -> fval)
  (randn_like : FTensor -> G -> FTensor * G)
  (convolution : Convolution -> state_dict P -> FTensor -> FTensor)
  (spade : SPADE -> state_dict P -> FTensor -> FTensor -> FTensor)
  (attention : SpatialAttentionBlock -> state_dict P -> FTensor -> FTensor)
  (upsample : Upsample -> state_dict P -> FTensor -> FTensor)
  (groupnorm : GroupNorm -> state_dict P -> FTensor -> FTensor)
  (encoder_net : Encoder -> state_dict P -> FTensor -> FTensor).

Definition FloatTorch : Torch FTensor := {|
  Params := P;
  Generator := G;
  torch_add := fun a b p => add (a p) (b p);
  torch_mul := fun a b p => mul (a p) (b p);
  torch_div := fun a n p => fdiv (a p) n;
  torch_clamp := fun a lo hi p => fclamp (a p) (IZR lo) (IZR hi);
  torch_exp := fun a p => fexp (a p);
  F_silu := fun a p => silu_elem (a p);
  torch_randn_like := randn_like;
  Convolution_forward := convolution;
  SPADE_forward := spade;
  SpatialAttentionBlock_forward := attention;
  Upsample_forward := upsample;
  GroupNorm_forward := groupnorm;
  Encoder_forward := encoder_net
|}.

End FloatValues.

Arguments FloatTorch {Pos P G}.

(** ** Shapes

    A tensor is read as its shape, batch first and channels second, or as
    [None] once an operation has refused its operands. *)

Definition Shape : Type := list Z.

(** Broadcasting of two shapes, from the last axis backwards. *)
Fixpoint broadcast_rev (a b : list Z) : option (list Z) :=
  match a, b with
  | [], l => Some l
  | l, [] => Some l
  | x :: a', y :: b' =>
      match broadcast_rev a' b' with
      | None => None
      | Some r =>
          if x =? y then Some (x :: r)
          else if x =? 1 then Some (y :: r)
          else if y =? 1 then Some (x :: r)
          else None
      end
  end.

Definition broadcast (a b : option Shape) : option Shape :=
  match a, b with
  | Some a, Some b => option_map (@rev Z) (broadcast_rev (rev a) (rev b))
  | _, _ => None
  end.

(** Modelled from the spec: [Convolution] (monai.networks.blocks) is not
    under src/. A convolution maps B x Cin x spatial to B x Cout x spatial',
    each size going to [(d + 2 * padding - kernel_size) / strides + 1]: "3x3,
    stride 1, padding 1" keeps the spatial shape. *)
Definition Convolution_shape (c : Convolution) (x : option Shape) : option Shape :=
  match x with
  | Some (b :: ch :: sp) =>
      if (ch =? conv_in_channels c) && (len sp =? conv_spatial_dims c) then
        Some (b :: conv_out_channels c
                :: map (fun d => (d + 2 * conv_padding c - conv_kernel_size c)
                                   / conv_strides c + 1) sp)
      else None
  | _ => None
  end.

(** Modelled from the spec: [SPADE] (monai.networks.blocks.spade_norm) is
    not under src/. It normalises a B x norm_nc x spatial feature map with
    parameters computed from a B x label_nc segmentation map "internally
    resized to the current feature-map resolution"; the shape of the
    feature map is kept. *)
Definition SPADE_shape (n : SPADE) (x seg : option Shape) : option Shape :=
  match x, seg with
  | Some (b :: ch :: sp), Some (b' :: ch' :: sp') =>
      match spade_norm_nc n with
      | Some nc =>
          if (ch =? nc) && (ch' =? spade_label_nc n) && (b =? b')
             && (len sp =? spade_spatial_dims n) && (len sp' =? spade_spatial_dims n)
          then Some (b :: ch :: sp)
          else None
      | None => None
      end
  | _, _ => None
  end.

(** Modelled from the spec: [SpatialAttentionBlock] is not under src/;
    "self-attention over spatial positions" keeps the shape. *)
Definition SpatialAttentionBlock_shape (a : SpatialAttentionBlock) (x : option Shape)
  : option Shape :=
  match x with
  | Some (b :: ch :: sp) =>
      if (ch =? attn_num_channels a) && (len sp =? attn_spatial_dims a)
      then Some (b :: ch :: sp) else None
  | _ => None
  end.

(** Modelled from the spec: [Upsample] is not under src/; the
    "nontrainable" mode scales every spatial size by [scale_factor]
    ("nearest-neighbor x2") and then applies [post_conv]. *)
Definition Upsample_shape (u : Upsample) (x : option Shape) : option Shape :=
  match x with
  | Some (b :: ch :: sp) =>
      if (ch =? up_in_channels u) && (len sp =? up_spatial_dims u) then
        Convolution_shape (up_post_conv u)
          (Some (b :: ch :: map (fun d => Qfloor (inject_Z d * up_scale_factor u)) sp))
      else None
  | _ => None
  end.

(** Modelled from the spec: [nn.GroupNorm] keeps the shape of a tensor with
    [num_channels] channels. *)
Definition GroupNorm_shape (g : GroupNorm) (x : option Shape) : option Shape :=
  match x with
  | Some (b :: ch :: sp) => if ch =? gn_num_channels g then Some (b :: ch :: sp) else None
  | _ => None
  end.

(** Modelled from the spec: [Encoder] (monai.networks.nets.autoencoderkl) is
    not under src/. The spec has it as the "convolutional downsampling
    stack" whose level structure the decoder mirrors in reverse: every level
    but the last halves each spatial size, and the output has [out_channels]
    channels. *)
Definition Encoder_shape (e : Encoder) (x : option Shape) : option Shape :=
  match x with
  | Some (b :: ch :: sp) =>
      if (ch =? enc_in_channels e) && (len sp =? enc_spatial_dims e) then
        Some (b :: enc_out_channels e
                :: map (Nat.iter (List.length (enc_channels e) - 1) (fun d => d / 2)) sp)
      else None
  | _ => None
  end.

(** The shape reading of the substrate, for a given reading of the
    encoder. *)
Definition ShapeTorchWith (encoder_shape : Encoder -> option Shape -> option Shape)
  : Torch (option Shape) := {|
  Params := unit;
  Generator := unit;
  torch_add := broadcast;
  torch_mul := broadcast;
  torch_div := fun a _ => a;
  torch_clamp := fun a _ _ => a;
  torch_exp := fun a => a;
  F_silu := fun a => a;
  torch_randn_like := fun a g => (a, g);
  Convolution_forward := fun c _ => Convolution_shape c;
  SPADE_forward := fun n _ => SPADE_shape n;
  SpatialAttentionBlock_forward := fun a _ => SpatialAttentionBlock_shape a;
  Upsample_forward := fun u _ => Upsample_shape u;
  GroupNorm_forward := fun g _ => GroupNorm_shape g;
  Encoder_forward := fun e _ => encoder_shape e
|}.

Definition ShapeTorch : Torch (option Shape) := ShapeTorchWith Encoder_shape.

(** The state dict of the shape reading: no parameter matters. *)
Definition no_params : state_dict unit := fun _ => tt.

(** ** The block list of the decoder in closed form

    What the loops of [SPADEDecoder.init] assemble, written level by level
    with the blocks of the code (lemma [init_blocks]); the functions of the
    level index [i] -- widths, counts, attention flags -- are those of
    section 4.2. *)

Section Layout.

Variables (spatial_dims : Z) (channels : list Z) (in_channels out_channels : Z)
  (num_res_blocks : list Z) (norm_num_groups : Z) (norm_eps : Q)
  (attention_levels : list bool) (label_nc : Z) (with_nonlocal_attn : bool)
  (spade_intermediate_channels : Z).

Local Notation "'res'" :=
  (SPADEDecoder.res_block spatial_dims norm_num_groups norm_eps label_nc
     spade_intermediate_channels).
Local Notation "'attn'" :=
  (SPADEDecoder.attn_block spatial_dims norm_num_groups norm_eps).

(** Width of level [i]: [reversed(channels)[i]]. *)
Definition level_width (i : nat) : Z := nth i (rev channels) 0.

(** Width a level starts from: the width of the level before it, and for
    level 0 its own. *)
Definition level_input_width (i : nat) : Z := level_width (pred i).

(** [reversed(num_res_blocks)[i]], as a number of iterations. *)
Definition level_count (i : nat) : nat := Z.to_nat (nth i (rev num_res_blocks) 0).

(** [reversed(attention_levels)[i]]. *)
Definition level_attention (i : nat) : bool := nth i (rev attention_levels) false.

(** The residual blocks of one level, counted from [first]: the block at
    [first] goes from [cin] to [w], the others stay at [w]; each is followed
    by an attention block when [a] holds. *)
Definition res_run_from (first : nat) (cin w : Z) (n : nat) (a : bool) : list Module_ :=
  concat
    (map (fun k => res (if (k =? first)%nat then cin else w) w
                     :: (if a then [attn w] else []))
       (seq first n)).

Definition res_run (cin w : Z) (n : nat) (a : bool) : list Module_ :=
  res_run_from 0 cin w n a.

(** The width of the feature map when level [i] is over. *)
Definition width_after (i : nat) : Z :=
  match level_count i with
  | O => level_input_width i
  | S _ => level_width i
  end.

Definition is_last_level (i : nat) : bool := Z.of_nat i =? len channels - 1.

Definition level_layout (i : nat) : list Module_ :=
  res_run (level_input_width i) (level_width i) (level_count i) (level_attention i)
  ++ (if is_last_level i then []
      else [SPADEDecoder.upsample_block spatial_dims (width_after i)]).

Definition nonlocal_layout : list Module_ :=
  if with_nonlocal_attn then
    [res (level_width 0) (level_width 0); attn (level_width 0);
     res (level_width 0) (level_width 0)]
  else [].

Definition decoder_layout : list Module_ :=
  [MConvolution (SPADEDecoder.conv3 spatial_dims in_channels (level_width 0))]
  ++ nonlocal_layout
  ++ concat (map level_layout (seq 0 (List.length channels)))
  ++ [SPADEDecoder.group_norm norm_num_groups norm_eps
        (width_after (List.length channels - 1));
      MConvolution
        (SPADEDecoder.conv3 spatial_dims (width_after (List.length channels - 1))
           out_channels)].

End Layout.

(** The widths of the upsampling stages of a block sequence, in order. *)
Definition upsample_widths (blocks : list Module_) : list Z :=
  flat_map (fun m => match m with MUpsample u => [up_out_channels u] | _ => [] end)
    blocks.



(** ** The stages of the decoder, as the specification words them

    Section 4.2 names each stage of the decoder by its kind and by a few
    numbers: kernel, stride, padding and widths of a convolution, the two
    widths of a residual block, the width of an attention block, the
    interpolation, scale and post-convolution of an upsampling stage, the
    groups and the affine flag of the final normalisation. [stage_of] reads
    these off a block of the code, and [decoder_stages] is the sequence of
    the specification, written without the constructors of the code. *)





Section Stages.

Variables (channels : list Z) (in_channels out_channels : Z)
  (num_res_blocks : list Z) (norm_num_groups : Z) (attention_levels : list bool)
  (with_nonlocal_attn : bool).






End Stages.

(** ** The three validation failures, as the specification words them *)

(** (1) some entry of [channels] is not divisible by [norm_num_groups]. *)
Definition not_divisible (channels : list Z) (norm_num_groups : Z) : Prop :=
  exists c, In c channels /\ c mod norm_num_groups <> 0.

(** (2) [len(channels) != len(attention_levels)]. *)
Definition attention_mismatch (channels : list Z) (attention_levels : list bool) : Prop :=
  List.length channels <> List.length attention_levels.

(** (3) [num_res_blocks] is a sequence whose length differs from
    [len(channels)]. *)
Definition res_blocks_mismatch (num_res_blocks : int_or_seq) (channels : list Z) : Prop :=
  match num_res_blocks with
  | AnInt _ => False
  | ASeq l => List.length l <> List.length channels
  end.

(** The default [norm_eps] of the top-level model, [1e-6]. *)
Definition default_norm_eps : Q := (1 # 1000000)%Q.

(** [num_res_blocks] once the single count is broadcast. *)
Definition res_blocks_list (num_res_blocks : int_or_seq) (channels : list Z) : list Z :=
  match num_res_blocks with
  | AnInt n => ensure_tuple_rep n (len channels)
  | ASeq l => l
  end.

(** The dispatch of [SPADEDecoder.forward], as the specification words it:
    which arguments a block is invoked with, what an invocation with given
    arguments returns, and the blocks of a sequence invoked in order. *)

Section Dispatch.

Context {Tensor : Type} {torch : Torch Tensor}.

(** The arguments the loop passes to [block]. *)
Definition passed_args (block : Module_) (x seg : Tensor) : list Tensor :=
  if isinstance_SPADEResBlock block then [x; seg] else [x].

(** [invoked sd block args y]: the call of [block] on [args] is accepted by the
    [forward] of the block's class and returns [y]. *)
Inductive invoked (sd : state_dict Params) : Module_ -> list Tensor -> Tensor -> Prop :=
| invoked_res_block b x seg :
    invoked sd (MSPADEResBlock b) [x; seg] (SPADEResBlock_forward b sd x seg)
| invoked_convolution c x :
    invoked sd (MConvolution c) [x] (Convolution_forward c sd x)
| invoked_attention a x :
    invoked sd (MSpatialAttentionBlock a) [x] (SpatialAttentionBlock_forward a sd x)
| invoked_upsample u x :
    invoked sd (MUpsample u) [x] (Upsample_forward u sd x)
| invoked_group_norm g x :
    invoked sd (MGroupNorm g) [x] (GroupNorm_forward g sd x).

(** [applied_in_order sd seg i blocks x z]: invoking the blocks one after
    the other, each on the output of the one before it, takes [x] to [z];
    [i] is the index of the first block. *)
Inductive applied_in_order (sd : state_dict Params) (seg : Tensor)
  : nat -> list Module_ -> Tensor -> Tensor -> Prop :=
| applied_nil i x : applied_in_order sd seg i [] x x
| applied_cons i block rest x y z :
    invoked (sub (Item i) sd) block (passed_args block x seg) y ->
    applied_in_order sd seg (S i) rest y z ->
    applied_in_order sd seg i (block :: rest) x z.

End Dispatch.

(** ** Further vocabulary for the properties *)

(** The three messages of the checks of [SPADEAutoencoderKL.__init__]. *)
Definition msg_channels : string :=
  "SPADEAutoencoderKL expects all channels being multiple of norm_num_groups".

Definition msg_attention : string :=
  "SPADEAutoencoderKL expects channels being same size of attention_levels".

Definition msg_res_blocks : string :=
  "`num_res_blocks` should be a single integer or a tuple of integers with the same length as `channels`.".

(** The number of [SPADEResBlock]s of a block sequence. *)
Definition count_res_blocks (blocks : list Module_) : nat :=
  List.length (filter isinstance_SPADEResBlock blocks).

(** A block whose SPADE normalisations are built for the channels they
    receive: [norm1] for the input width, [norm2] for the output width. *)
Definition norms_fit (block : Module_) : Prop :=
  match block with
  | MSPADEResBlock b =>
      spade_norm_nc (SPADEResBlock.norm1 b) = Some (SPADEResBlock.in_channels b)
      /\ spade_norm_nc (SPADEResBlock.norm2 b) = Some (SPADEResBlock.out_channels b)
  | _ => True
  end.

(** The lookups of [SPADEDecoder.__init__] at level [i] are in range:
    [reversed_num_res_blocks[i]] always, [reversed_attention_levels[i]] when
    the level has a residual block. *)
Definition level_in_range (num_res_blocks : list Z) (attention_levels : list bool)
    (i : nat) : Prop :=
  (i < List.length num_res_blocks)%nat
  /\ ((0 < level_count num_res_blocks i)%nat -> (i < List.length attention_levels)%nat).

(** The schedules [SPADEDecoder.__init__] accepts. *)
Definition schedules_in_range (channels : list Z) (num_res_blocks : list Z)
    (attention_levels : list bool) : Prop :=
  channels <> []
  /\ forall i : nat,
       (i < List.length channels)%nat ->
       level_in_range num_res_blocks attention_levels i.

(** The log-variance of [encode] before the clamp, over the reals:
    [quant_conv_log_sigma] at the output of the encoder. *)
Definition raw_log_var {Pos P : Type}
    (convolution : Convolution -> state_dict P -> RTensor Pos -> RTensor Pos)
    (encoder_net : Encoder -> state_dict P -> RTensor Pos -> RTensor Pos)
    (self : SPADEAutoencoderKL.t) (sd : state_dict P) (x : RTensor Pos)
  : RTensor Pos :=
  convolution (SPADEAutoencoderKL.quant_conv_log_sigma self)
    (sub (Attr "quant_conv_log_sigma") sd)
    (encoder_net (SPADEAutoencoderKL.encoder self) (sub (Attr "encoder") sd) x).

(** * Properties *)

(** ** The [result] monad and the loops *)

Lemma bind_ok {A B : Type} (c : result A) (k : A -> result B) (b : B) :
  (x <- c ;; k x) = Ok b -> exists a, c = Ok a /\ k a = Ok b.
Proof.
  destruct c as [a | e]; simpl; intros H.
  - exists a. split; [reflexivity | exact H].
  - discriminate H.
Qed.

Lemma getitem_nth {A : Type} (l : list A) (i : nat) (a d : A) :
  getitem l i = Ok a -> nth i l d = a.
Proof.
  unfold getitem. destruct (nth_error l i) as [a' |] eqn:E; intros H.
  - injection H as <-. now apply nth_error_nth.
  - discriminate H.
Qed.

Lemma getitem_lt {A : Type} (l : list A) (i : nat) (d : A) :
  (i < List.length l)%nat -> getitem l i = Ok (nth i l d).
Proof.
  intros H. unfold getitem.
  destruct (nth_error l i) as [a |] eqn:E.
  - f_equal. symmetry. now apply nth_error_nth.
  - apply nth_error_None in E. lia.
Qed.

Lemma getitem_raises {A : Type} (l : list A) (i : nat) :
  (List.length l <= i)%nat -> getitem l i = Raise IndexError.
Proof.
  intros H. unfold getitem.
  now rewrite (proj2 (nth_error_None l i) H).
Qed.

Lemma for_each_app {A S : Type} (l1 l2 : list A) (body : A -> S -> result S) (s : S) :
  for_each (l1 ++ l2) body s = (s' <- for_each l1 body s ;; for_each l2 body s').
Proof.
  revert s. induction l1 as [| x l1 IH]; intros s; simpl.
  - reflexivity.
  - destruct (body x s) as [s1 | e]; simpl; [apply IH | reflexivity].
Qed.

Lemma construct_ok {A : Type} (init : A -> result unit) (args a : A) :
  construct init args = Ok a -> a = args /\ init args = Ok tt.
Proof.
  unfold construct. destruct (init args) as [[] | e]; simpl; intros H.
  - injection H as <-. now split.
  - discriminate H.
Qed.

Lemma for_each_ext {A S : Type} (l : list A) (f g : A -> S -> result S) :
  (forall x s, In x l -> f x s = g x s) ->
  forall s, for_each l f s = for_each l g s.
Proof.
  induction l as [| x l IH]; intros H s; simpl.
  - reflexivity.
  - rewrite (H x s (or_introl eq_refl)).
    destruct (g x s) as [s1 | e]; simpl; [| reflexivity].
    apply IH. intros y s' Hy. apply H. now right.
Qed.

Lemma for_each_refines {A S : Type} (l : list A) (f g : A -> S -> result S) :
  (forall x s s', f x s = Ok s' -> g x s = Ok s') ->
  forall s s', for_each l f s = Ok s' -> for_each l g s = Ok s'.
Proof.
  intros H. induction l as [| x l IH]; intros s s' Hrun; simpl in *.
  - exact Hrun.
  - apply bind_ok in Hrun as (s1 & H1 & Hrest).
    rewrite (H _ _ _ H1). simpl. now apply IH.
Qed.

(** ** SPADEResBlock.__init__ *)

Section ResBlockInit.

Variables (spatial_dims in_channels norm_num_groups : Z) (norm_eps : Q)
  (label_nc spade_intermediate_channels : Z).

Local Notation "'new' out" :=
  (SPADEResBlock.init spatial_dims in_channels norm_num_groups norm_eps out label_nc
     spade_intermediate_channels) (at level 10).

Lemma init_out_channels_some (c : Z) :
  SPADEResBlock.out_channels (new (Some c)) = c.
Proof. reflexivity. Qed.

Lemma init_in_channels (out : option Z) :
  SPADEResBlock.in_channels (new out) = in_channels.
Proof. reflexivity. Qed.

Lemma init_shortcut (out : option Z) :
  SPADEResBlock.nin_shortcut (new out)
  = if in_channels =? SPADEResBlock.out_channels (new out)
    then SPADEResBlock.ShortcutIdentity
    else SPADEResBlock.ShortcutConvolution {|
           conv_spatial_dims := spatial_dims;
           conv_in_channels := in_channels;
           conv_out_channels := SPADEResBlock.out_channels (new out);
           conv_strides := 1;
           conv_kernel_size := 1;
           conv_padding := 0;
           conv_conv_only := true |}.
Proof.
  unfold SPADEResBlock.init; simpl.
  destruct (in_channels =? _); reflexivity.
Qed.

(** C10. Whatever the arguments, [norm2] is built with the raw
    [out_channels] argument as its [norm_nc], not with the resolved
    [self.out_channels]: when the argument is [None], [norm2] gets [None]
    and not [in_channels], while [conv1], [conv2] and the shortcut are built
    from the resolved width [in_channels]. *)
Theorem norm2_takes_raw_out_channels (out : option Z) :
  let self := SPADEResBlock.init spatial_dims in_channels norm_num_groups norm_eps
                out label_nc spade_intermediate_channels in
  let absent := SPADEResBlock.init spatial_dims in_channels norm_num_groups norm_eps
                  None label_nc spade_intermediate_channels in
  spade_norm_nc (SPADEResBlock.norm2 self) = out
  /\ spade_norm_nc (SPADEResBlock.norm2 absent) = None
  /\ spade_norm_nc (SPADEResBlock.norm2 absent)
     <> Some (SPADEResBlock.out_channels absent)
  /\ SPADEResBlock.out_channels absent = in_channels
  /\ conv_out_channels (SPADEResBlock.conv1 absent) = in_channels
  /\ conv_in_channels (SPADEResBlock.conv2 absent) = in_channels
  /\ conv_out_channels (SPADEResBlock.conv2 absent) = in_channels
  /\ SPADEResBlock.nin_shortcut absent = SPADEResBlock.ShortcutIdentity
  /\ spade_norm_nc (SPADEResBlock.norm1 self) = Some in_channels.
Proof.
  intros self absent. subst self absent.
  repeat split; try reflexivity.
  - simpl. discriminate.
  - rewrite init_shortcut. simpl. now rewrite Z.eqb_refl.
Qed.

End ResBlockInit.

(** A block that is constructed with the imported constructors run is the
    block [init] assembles. *)
Section ResBlockRefinement.

Variable K : constructors.

Lemma res_block_init_with_ok (spatial_dims in_channels norm_num_groups : Z)
    (norm_eps : Q) (out_channels : option Z)
    (label_nc spade_intermediate_channels : Z) (b : SPADEResBlock.t) :
  SPADEResBlock.init_with K spatial_dims in_channels norm_num_groups norm_eps
    out_channels label_nc spade_intermediate_channels = Ok b ->
  b = SPADEResBlock.init spatial_dims in_channels norm_num_groups norm_eps
        out_channels label_nc spade_intermediate_channels.
Proof.
  unfold SPADEResBlock.init_with, SPADEResBlock.init. intros H.
  apply bind_ok in H as (n1 & H1 & H). apply construct_ok in H1 as (-> & _).
  apply bind_ok in H as (c1 & H1 & H). apply construct_ok in H1 as (-> & _).
  apply bind_ok in H as (n2 & H1 & H). apply construct_ok in H1 as (-> & _).
  apply bind_ok in H as (c2 & H1 & H). apply construct_ok in H1 as (-> & _).
  apply bind_ok in H as (sc & H1 & H). injection H as <-.
  destruct (negb _).
  - apply bind_ok in H1 as (c & H1 & H). apply construct_ok in H1 as (-> & _).
    now injection H as <-.
  - now injection H1 as <-.
Qed.

End ResBlockRefinement.

(** With constructors that return on every argument, [init_with] is
    [init]. *)

Lemma res_block_init_with_accepting (spatial_dims in_channels norm_num_groups : Z)
    (norm_eps : Q) (out_channels : option Z)
    (label_nc spade_intermediate_channels : Z) :
  SPADEResBlock.init_with accepting spatial_dims in_channels norm_num_groups
    norm_eps out_channels label_nc spade_intermediate_channels
  = Ok (SPADEResBlock.init spatial_dims in_channels norm_num_groups norm_eps
          out_channels label_nc spade_intermediate_channels).
Proof.
  unfold SPADEResBlock.init_with, SPADEResBlock.init. simpl.
  destruct (negb _); reflexivity.
Qed.

Section ExplicitWidth.

Variables (K : constructors) (spatial_dims in_channels norm_num_groups : Z)
  (norm_eps : Q) (label_nc spade_intermediate_channels : Z).

(** C8, as amended. An explicit [out_channels], zero included, is used as
    it is given: whenever the block is constructed, [c] is its output
    width, [conv1] goes from [in_channels] to [c], [conv2] stays at [c],
    [norm2] normalises [c] channels, and the shortcut is the identity
    exactly when [c] is [in_channels];
    otherwise it is the 1x1 convolution from [in_channels] to [c]. So a zero
    [out_channels] on a non-zero [in_channels] is no fallback: the block
    goes to zero channels through a projecting shortcut. *)
Theorem explicit_out_channels_used_as_given (c : Z) (self : SPADEResBlock.t) :
  SPADEResBlock.init_with K spatial_dims in_channels norm_num_groups norm_eps
    (Some c) label_nc spade_intermediate_channels = Ok self ->
  SPADEResBlock.in_channels self = in_channels
  /\ SPADEResBlock.out_channels self = c
  /\ conv_in_channels (SPADEResBlock.conv1 self) = in_channels
  /\ conv_out_channels (SPADEResBlock.conv1 self) = c
  /\ conv_in_channels (SPADEResBlock.conv2 self) = c
  /\ conv_out_channels (SPADEResBlock.conv2 self) = c
  /\ spade_norm_nc (SPADEResBlock.norm2 self) = Some c
  /\ (SPADEResBlock.nin_shortcut self = SPADEResBlock.ShortcutIdentity
      <-> in_channels = c)
  /\ (in_channels <> c ->
      exists conv,
        SPADEResBlock.nin_shortcut self = SPADEResBlock.ShortcutConvolution conv
        /\ conv_in_channels conv = in_channels
        /\ conv_out_channels conv = c
        /\ conv_kernel_size conv = 1
        /\ conv_strides conv = 1)
  /\ (c = 0 -> in_channels <> 0 ->
      SPADEResBlock.out_channels self <> in_channels
      /\ SPADEResBlock.nin_shortcut self <> SPADEResBlock.ShortcutIdentity).
Proof.
  intros H. apply res_block_init_with_ok in H. subst self.
  assert (Hs : forall out,
            SPADEResBlock.nin_shortcut
              (SPADEResBlock.init spatial_dims in_channels norm_num_groups norm_eps
                 out label_nc spade_intermediate_channels)
            = _) by (intros out; apply init_shortcut).
  specialize (Hs (Some c)). cbn [SPADEResBlock.out_channels SPADEResBlock.init] in Hs.
  repeat (split; [reflexivity |]).
  assert (Hid : SPADEResBlock.nin_shortcut
                  (SPADEResBlock.init spatial_dims in_channels norm_num_groups
                     norm_eps (Some c) label_nc spade_intermediate_channels)
                = SPADEResBlock.ShortcutIdentity <-> in_channels = c).
  { rewrite Hs. destruct (in_channels =? c) eqn:E.
    - apply Z.eqb_eq in E. tauto.
    - apply Z.eqb_neq in E. split; [discriminate | contradiction]. }
  split; [exact Hid |]. split.
  - intros Hne. rewrite Hs.
    rewrite (proj2 (Z.eqb_neq in_channels c) Hne).
    eexists. split; [reflexivity |]. repeat split.
  - intros -> Hne. split.
    + cbn [SPADEResBlock.out_channels SPADEResBlock.init]. congruence.
    + intros Hi. apply Hid in Hi. contradiction.
Qed.

End ExplicitWidth.

(** A block from 64 channels to an explicit zero. *)
Lemma explicit_out_channels_zero :
  exists self,
    SPADEResBlock.init_with accepting 2 64 32 default_norm_eps (Some 0) 2 128
    = Ok self
    /\ SPADEResBlock.out_channels self = 0
    /\ SPADEResBlock.nin_shortcut self <> SPADEResBlock.ShortcutIdentity.
Proof.
  eexists. split; [apply res_block_init_with_accepting |].
  pose proof (explicit_out_channels_used_as_given accepting 2 64 32
                default_norm_eps 2 128 0 _
                (res_block_init_with_accepting 2 64 32 default_norm_eps (Some 0)
                   2 128)) as (_ & H1 & _ & _ & _ & _ & _ & _ & _ & H2).
  split; [exact H1 |]. apply H2; [reflexivity | discriminate].
Defined.

(** C8, as stated, fails for a zero [out_channels]: [0] is not [None], so it
    is taken as the output width, and a block from 64 channels then has a
    projecting shortcut. *)
Lemma zero_out_channels_is_not_a_fallback :
  ~ (SPADEResBlock.out_channels
       (SPADEResBlock.init 2 64 32 default_norm_eps (Some 0) 2 128) = 64
     /\ SPADEResBlock.nin_shortcut
          (SPADEResBlock.init 2 64 32 default_norm_eps (Some 0) 2 128)
        = SPADEResBlock.ShortcutIdentity).
Proof.
  intros [H _]. simpl in H. discriminate H.
Qed.

(** ** SPADEDecoder.__init__ *)

Section DecoderInit.

Variables (spatial_dims : Z) (channels : list Z) (in_channels out_channels : Z)
  (num_res_blocks : list Z) (norm_num_groups : Z) (norm_eps : Q)
  (attention_levels : list bool) (label_nc : Z) (with_nonlocal_attn : bool)
  (spade_intermediate_channels : Z).

Local Notation "'res'" :=
  (SPADEDecoder.res_block spatial_dims norm_num_groups norm_eps label_nc
     spade_intermediate_channels).
Local Notation "'attn'" :=
  (SPADEDecoder.attn_block spatial_dims norm_num_groups norm_eps).
Local Notation "'run_from'" :=
  (res_run_from spatial_dims norm_num_groups norm_eps label_nc
     spade_intermediate_channels).
Local Notation "'res_loop_body'" :=
  (SPADEDecoder.res_body spatial_dims norm_num_groups norm_eps label_nc
     spade_intermediate_channels (rev attention_levels)).
Local Notation "'level_loop_body'" :=
  (SPADEDecoder.level_body spatial_dims channels norm_num_groups norm_eps label_nc
     spade_intermediate_channels (rev channels) (rev attention_levels)
     (rev num_res_blocks)).
Local Notation "'layout_of_level'" :=
  (level_layout spatial_dims channels num_res_blocks norm_num_groups norm_eps
     attention_levels label_nc spade_intermediate_channels).
Local Notation "'final_width'" :=
  (width_after channels num_res_blocks (List.length channels - 1)).

Lemma res_run_from_S (j : nat) (cin w : Z) (n : nat) (a : bool) :
  run_from j cin w (S n) a
  = (res cin w :: (if a then [attn w] else [])) ++ run_from (S j) w w n a.
Proof.
  unfold res_run_from. rewrite <- cons_seq. simpl map. simpl concat.
  rewrite Nat.eqb_refl. rewrite <- app_comm_cons. do 3 f_equal.
  apply map_ext_in. intros k Hk. apply in_seq in Hk.
  replace (k =? j)%nat with false by (symmetry; apply Nat.eqb_neq; lia).
  now destruct (k =? S j)%nat.
Qed.

(** The inner loop: [n] residual blocks, the first from [cin]. *)
Lemma res_loop (i : nat) (w : Z) (n : nat) :
  forall (j : nat) (s s' : SPADEDecoder.locals) (cin : Z),
    SPADEDecoder.l_block_out_ch s = w ->
    SPADEDecoder.l_block_in_ch s = Some cin ->
    for_each (seq j n) (res_loop_body i) s = Ok s' ->
    SPADEDecoder.l_blocks s'
    = SPADEDecoder.l_blocks s ++ run_from j cin w n (level_attention attention_levels i)
    /\ SPADEDecoder.l_block_out_ch s' = w
    /\ SPADEDecoder.l_block_in_ch s' = Some (match n with O => cin | S _ => w end).
Proof.
  induction n as [| n IH]; intros j s s' cin Hout Hin Hrun.
  - simpl in Hrun. injection Hrun as <-.
    unfold res_run_from. simpl. now rewrite app_nil_r.
  - rewrite <- cons_seq in Hrun. simpl in Hrun.
    apply bind_ok in Hrun as (s1 & Hbody & Hrest).
    unfold SPADEDecoder.res_body, SPADEDecoder.read_block_in_ch in Hbody.
    rewrite Hin in Hbody. simpl in Hbody.
    apply bind_ok in Hbody as (a & Ha & Hs1).
    apply (getitem_nth _ _ _ false) in Ha.
    injection Hs1 as <-.
    eapply IH in Hrest as (Hb & Ho & Hi);
      [| simpl; exact Hout | simpl; reflexivity].
    simpl in Hb.
    split; [| split].
    + rewrite Hb, res_run_from_S. unfold level_attention. rewrite Ha, Hout.
      destruct a; simpl; now rewrite <- !app_assoc.
    + exact Ho.
    + rewrite Hi, Hout. now destruct n.
Qed.

Lemma res_loop_ok (i : nat) (n : nat) :
  (i < List.length attention_levels)%nat ->
  forall (j : nat) (s : SPADEDecoder.locals),
    SPADEDecoder.l_block_in_ch s <> None ->
    exists s', for_each (seq j n) (res_loop_body i) s = Ok s'.
Proof.
  intros Hi. induction n as [| n IH]; intros j s Hin.
  - exists s. reflexivity.
  - rewrite <- cons_seq. simpl.
    unfold SPADEDecoder.res_body at 1, SPADEDecoder.read_block_in_ch.
    destruct (SPADEDecoder.l_block_in_ch s) as [c |]; [| contradiction].
    rewrite (getitem_lt _ _ false) by (now rewrite length_rev). simpl.
    apply IH. simpl. discriminate.
Qed.

(** One level: its residual blocks and, unless it is the last, its
    upsampling stage. *)
Lemma level_step (i : nat) (s s' : SPADEDecoder.locals) :
  SPADEDecoder.l_block_out_ch s = level_input_width channels i ->
  level_loop_body i s = Ok s' ->
  SPADEDecoder.l_blocks s' = SPADEDecoder.l_blocks s ++ layout_of_level i
  /\ SPADEDecoder.l_block_out_ch s' = level_width channels i
  /\ SPADEDecoder.l_block_in_ch s' = Some (width_after channels num_res_blocks i).
Proof.
  intros Hout Hrun. unfold SPADEDecoder.level_body in Hrun.
  apply bind_ok in Hrun as (w & Hw & Hrun).
  apply bind_ok in Hrun as (n & Hn & Hrun).
  apply bind_ok in Hrun as (s1 & Hloop & Hrun).
  apply (getitem_nth _ _ _ 0) in Hw. apply (getitem_nth _ _ _ 0) in Hn.
  unfold range in Hloop.
  eapply res_loop in Hloop as (Hb & Ho & Hi); [| reflexivity | reflexivity].
  simpl in Hb, Ho, Hi.
  assert (Hwo : SPADEDecoder.l_block_out_ch s1 = level_width channels i).
  { rewrite Ho. unfold level_width. now rewrite Hw. }
  assert (Hwa : SPADEDecoder.l_block_in_ch s1
                = Some (width_after channels num_res_blocks i)).
  { rewrite Hi. unfold width_after, level_count. rewrite Hn, Hout.
    unfold level_width. rewrite Hw. reflexivity. }
  assert (Hlay : SPADEDecoder.l_blocks s1
                 = SPADEDecoder.l_blocks s
                   ++ res_run spatial_dims norm_num_groups norm_eps label_nc
                        spade_intermediate_channels (level_input_width channels i)
                        (level_width channels i) (level_count num_res_blocks i)
                        (level_attention attention_levels i)).
  { rewrite Hb. unfold res_run, level_count, level_width.
    now rewrite Hn, Hw, Hout. }
  unfold level_layout, is_last_level.
  destruct (Z.of_nat i =? len channels - 1); simpl in Hrun.
  - injection Hrun as <-. rewrite app_nil_r.
    split; [exact Hlay | split; [exact Hwo | exact Hwa]].
  - unfold SPADEDecoder.read_block_in_ch in Hrun. rewrite Hwa in Hrun.
    simpl in Hrun. injection Hrun as <-. simpl.
    split; [now rewrite Hlay, <- app_assoc | split; [exact Hwo | reflexivity]].
Qed.

Lemma level_step_ok (i : nat) (s : SPADEDecoder.locals) :
  (i < List.length channels)%nat ->
  (i < List.length num_res_blocks)%nat ->
  (i < List.length attention_levels)%nat ->
  exists s', level_loop_body i s = Ok s'.
Proof.
  intros Hc Hn Ha. unfold SPADEDecoder.level_body.
  rewrite (getitem_lt _ _ 0) by (now rewrite length_rev).
  rewrite (getitem_lt _ _ 0) by (now rewrite length_rev). simpl.
  unfold range.
  match goal with
  | |- context [for_each (seq 0 ?n) _ ?s0] =>
      destruct (res_loop_ok i n Ha 0 s0) as (s1 & Hs1);
      [simpl; discriminate |];
      pose proof Hs1 as Hin;
      eapply res_loop in Hin as (_ & _ & Hin); [| reflexivity | reflexivity]
  end.
  rewrite Hs1. simpl.
  destruct (negb _); [| now exists s1].
  unfold SPADEDecoder.read_block_in_ch. rewrite Hin. simpl. eauto.
Qed.

(** The loop over the levels [i, i + k). *)
Lemma levels_loop (k : nat) :
  forall (i : nat) (s s' : SPADEDecoder.locals),
    SPADEDecoder.l_block_out_ch s = level_input_width channels i ->
    for_each (seq i k) level_loop_body s = Ok s' ->
    SPADEDecoder.l_blocks s'
    = SPADEDecoder.l_blocks s ++ concat (map layout_of_level (seq i k))
    /\ SPADEDecoder.l_block_out_ch s' = level_input_width channels (i + k)
    /\ ((0 < k)%nat ->
        SPADEDecoder.l_block_in_ch s'
        = Some (width_after channels num_res_blocks (i + k - 1))).
Proof.
  induction k as [| k IH]; intros i s s' Hout Hrun.
  - simpl in Hrun. injection Hrun as <-. simpl.
    rewrite app_nil_r, Nat.add_0_r. split; [reflexivity | split; [exact Hout | lia]].
  - rewrite <- cons_seq in Hrun. simpl in Hrun.
    apply bind_ok in Hrun as (s1 & Hstep & Hrest).
    destruct (level_step i s s1 Hout Hstep) as (Hb1 & Ho1 & Hi1).
    destruct (IH (S i) s1 s' Ho1 Hrest) as (Hb & Ho & Hi).
    rewrite <- cons_seq. simpl. rewrite Nat.add_succ_r.
    split; [| split].
    + now rewrite Hb, Hb1, <- app_assoc.
    + exact Ho.
    + intros _. destruct k as [| k].
      * simpl in Hrest. injection Hrest as <-.
        rewrite Hi1; f_equal; f_equal; lia.
      * rewrite Hi by lia; f_equal; f_equal; lia.
Qed.

Lemma levels_loop_ok (k : nat) :
  forall (i : nat) (s : SPADEDecoder.locals),
    (i + k <= List.length channels)%nat ->
    (i + k <= List.length num_res_blocks)%nat ->
    (i + k <= List.length attention_levels)%nat ->
    exists s', for_each (seq i k) level_loop_body s = Ok s'.
Proof.
  induction k as [| k IH]; intros i s Hc Hn Ha.
  - exists s. reflexivity.
  - rewrite <- cons_seq. simpl.
    destruct (level_step_ok i s) as (s1 & Hs1); try lia.
    rewrite Hs1. simpl. apply IH; lia.
Qed.

(** What [SPADEDecoder.init] returns, when it returns. *)
Lemma init_blocks (d : SPADEDecoder.t) :
  SPADEDecoder.init spatial_dims channels in_channels out_channels num_res_blocks
    norm_num_groups norm_eps attention_levels label_nc with_nonlocal_attn
    spade_intermediate_channels = Ok d ->
  channels <> []
  /\ d = SPADEDecoder.Build_t spatial_dims channels in_channels out_channels
           num_res_blocks norm_num_groups norm_eps attention_levels label_nc
           (decoder_layout spatial_dims channels in_channels out_channels
              num_res_blocks norm_num_groups norm_eps attention_levels label_nc
              with_nonlocal_attn spade_intermediate_channels).
Proof.
  intros H. unfold SPADEDecoder.init in H.
  apply bind_ok in H as (c0 & Hc0 & H).
  apply bind_ok in H as (c0' & Hc0' & H).
  apply bind_ok in H as (s & Hloop & H).
  apply bind_ok in H as (c & Hc & H).
  assert (Hne : channels <> []).
  { intros ->. discriminate Hc0. }
  assert (Hlen : (0 < List.length channels)%nat).
  { destruct channels; [contradiction | simpl; lia]. }
  apply (getitem_nth _ _ _ 0) in Hc0. apply (getitem_nth _ _ _ 0) in Hc0'.
  unfold range, len in Hloop. rewrite Nat2Z.id, length_rev in Hloop.
  eapply levels_loop in Hloop as (Hb & _ & Hi); [| symmetry; exact Hc0'].
  specialize (Hi Hlen). simpl in Hb, Hi.
  unfold SPADEDecoder.read_block_in_ch in Hc. rewrite Hi in Hc.
  injection Hc as <-. injection H as <-.
  split; [exact Hne |]. f_equal.
  rewrite Hb. unfold decoder_layout, nonlocal_layout, level_width.
  rewrite Hc0. destruct with_nonlocal_attn; simpl; now rewrite <- !app_assoc.
Qed.

(** [SPADEDecoder.init] returns once the schedules are as long as a
    non-empty [channels]. *)
Lemma init_returns :
  channels <> [] ->
  List.length num_res_blocks = List.length channels ->
  List.length attention_levels = List.length channels ->
  exists d,
    SPADEDecoder.init spatial_dims channels in_channels out_channels num_res_blocks
      norm_num_groups norm_eps attention_levels label_nc with_nonlocal_attn
      spade_intermediate_channels = Ok d.
Proof.
  intros Hne Hn Ha. unfold SPADEDecoder.init.
  assert (Hlen : (0 < List.length channels)%nat).
  { destruct channels; [contradiction | simpl; lia]. }
  rewrite (getitem_lt _ _ 0) by (now rewrite length_rev). simpl.
  unfold range, len. rewrite Nat2Z.id, length_rev.
  match goal with
  | |- context [for_each _ _ ?s0] =>
      destruct (levels_loop_ok (List.length channels) 0 s0) as (s & Hs); try lia;
      pose proof Hs as Hi;
      eapply levels_loop in Hi as (_ & _ & Hi); [| reflexivity]
  end.
  rewrite Hs. simpl. unfold SPADEDecoder.read_block_in_ch.
  rewrite (Hi Hlen). simpl. eauto.
Qed.

End DecoderInit.

(** *** The imported constructors run *)

Section DecoderRefinement.

Variable K : constructors.

Variables (spatial_dims : Z) (channels : list Z) (in_channels out_channels : Z)
  (num_res_blocks : list Z) (norm_num_groups : Z) (norm_eps : Q)
  (attention_levels : list bool) (label_nc : Z) (with_nonlocal_attn : bool)
  (spade_intermediate_channels : Z).

Lemma res_block_with_ok (cin cout : Z) (m : Module_) :
  SPADEDecoder.res_block_with K spatial_dims norm_num_groups norm_eps label_nc
    spade_intermediate_channels cin cout = Ok m ->
  m = SPADEDecoder.res_block spatial_dims norm_num_groups norm_eps label_nc
        spade_intermediate_channels cin cout.
Proof.
  unfold SPADEDecoder.res_block_with, SPADEDecoder.res_block. intros H.
  apply bind_ok in H as (b & Hb & H). injection H as <-.
  f_equal. now apply (res_block_init_with_ok K).
Qed.

Lemma attn_block_with_ok (c : Z) (m : Module_) :
  SPADEDecoder.attn_block_with K spatial_dims norm_num_groups norm_eps c = Ok m ->
  m = SPADEDecoder.attn_block spatial_dims norm_num_groups norm_eps c.
Proof.
  unfold SPADEDecoder.attn_block_with, SPADEDecoder.attn_block. intros H.
  apply bind_ok in H as (a & Ha & H). apply construct_ok in Ha as (-> & _).
  now injection H as <-.
Qed.

Lemma upsample_block_with_ok (c : Z) (m : Module_) :
  SPADEDecoder.upsample_block_with K spatial_dims c = Ok m ->
  m = SPADEDecoder.upsample_block spatial_dims c.
Proof.
  unfold SPADEDecoder.upsample_block_with, SPADEDecoder.upsample_block. intros H.
  apply bind_ok in H as (pc & Hp & H). apply construct_ok in Hp as (-> & _).
  apply bind_ok in H as (u & Hu & H). apply construct_ok in Hu as (-> & _).
  now injection H as <-.
Qed.

Lemma group_norm_with_ok (c : Z) (m : Module_) :
  SPADEDecoder.group_norm_with K norm_num_groups norm_eps c = Ok m ->
  m = SPADEDecoder.group_norm norm_num_groups norm_eps c.
Proof.
  unfold SPADEDecoder.group_norm_with, SPADEDecoder.group_norm. intros H.
  apply bind_ok in H as (g & Hg & H). apply construct_ok in Hg as (-> & _).
  now injection H as <-.
Qed.

Lemma res_body_with_ok (ra : list bool) (i x : nat) (s s' : SPADEDecoder.locals) :
  SPADEDecoder.res_body_with K spatial_dims norm_num_groups norm_eps label_nc
    spade_intermediate_channels ra i x s = Ok s' ->
  SPADEDecoder.res_body spatial_dims norm_num_groups norm_eps label_nc
    spade_intermediate_channels ra i x s = Ok s'.
Proof.
  unfold SPADEDecoder.res_body_with, SPADEDecoder.res_body. intros H.
  apply bind_ok in H as (cin & -> & H). simpl.
  apply bind_ok in H as (b & Hb & H). apply res_block_with_ok in Hb as ->.
  apply bind_ok in H as (a & -> & H). simpl.
  apply bind_ok in H as (blocks & Hbl & H). injection H as <-.
  destruct a.
  - apply bind_ok in Hbl as (m & Hm & Hbl). apply attn_block_with_ok in Hm as ->.
    now injection Hbl as <-.
  - now injection Hbl as <-.
Qed.

Lemma level_body_with_ok (rc : list Z) (ra : list bool) (rn : list Z) (i : nat)
    (s s' : SPADEDecoder.locals) :
  SPADEDecoder.level_body_with K spatial_dims channels norm_num_groups norm_eps
    label_nc spade_intermediate_channels rc ra rn i s = Ok s' ->
  SPADEDecoder.level_body spatial_dims channels norm_num_groups norm_eps label_nc
    spade_intermediate_channels rc ra rn i s = Ok s'.
Proof.
  unfold SPADEDecoder.level_body_with, SPADEDecoder.level_body. intros H.
  apply bind_ok in H as (w & -> & H). simpl.
  apply bind_ok in H as (n & -> & H). simpl.
  apply bind_ok in H as (s1 & Hloop & H).
  apply (for_each_refines _ _ _ (res_body_with_ok ra i)) in Hloop.
  rewrite Hloop. simpl.
  destruct (negb _); [| exact H].
  apply bind_ok in H as (c & -> & H). simpl.
  apply bind_ok in H as (u & Hu & H). apply upsample_block_with_ok in Hu as ->.
  exact H.
Qed.

(** A decoder that is constructed with the imported constructors run is
    the decoder [init] assembles. *)
Lemma decoder_init_with_ok (d : SPADEDecoder.t) :
  SPADEDecoder.init_with K spatial_dims channels in_channels out_channels
    num_res_blocks norm_num_groups norm_eps attention_levels label_nc
    with_nonlocal_attn spade_intermediate_channels = Ok d ->
  SPADEDecoder.init spatial_dims channels in_channels out_channels num_res_blocks
    norm_num_groups norm_eps attention_levels label_nc with_nonlocal_attn
    spade_intermediate_channels = Ok d.
Proof.
  unfold SPADEDecoder.init_with, SPADEDecoder.init. intros H.
  apply bind_ok in H as (c0 & -> & H). simpl.
  apply bind_ok in H as (ci & Hci & H). apply construct_ok in Hci as (-> & _).
  apply bind_ok in H as (blocks & Hbl & H).
  apply bind_ok in H as (w & Hw & H). injection Hw as <-.
  apply bind_ok in H as (s & Hloop & H).
  apply bind_ok in H as (c & Hc & H).
  apply bind_ok in H as (g & Hg & H). apply group_norm_with_ok in Hg as ->.
  apply bind_ok in H as (co & Hco & H). apply construct_ok in Hco as (-> & _).
  apply (for_each_refines _ _ _
           (level_body_with_ok (rev channels) (rev attention_levels)
              (rev num_res_blocks))) in Hloop.
  assert (Eb : blocks
               = if with_nonlocal_attn then
                   [MConvolution (SPADEDecoder.conv3 spatial_dims in_channels c0)]
                   ++ [SPADEDecoder.res_block spatial_dims norm_num_groups norm_eps
                         label_nc spade_intermediate_channels c0 c0]
                   ++ [SPADEDecoder.attn_block spatial_dims norm_num_groups norm_eps c0]
                   ++ [SPADEDecoder.res_block spatial_dims norm_num_groups norm_eps
                         label_nc spade_intermediate_channels c0 c0]
                 else [MConvolution (SPADEDecoder.conv3 spatial_dims in_channels c0)]).
  { destruct with_nonlocal_attn.
    - apply bind_ok in Hbl as (r1 & Hr1 & Hbl). apply res_block_with_ok in Hr1 as ->.
      apply bind_ok in Hbl as (a & Ha & Hbl). apply attn_block_with_ok in Ha as ->.
      apply bind_ok in Hbl as (r2 & Hr2 & Hbl). apply res_block_with_ok in Hr2 as ->.
      now injection Hbl as <-.
    - now injection Hbl as <-. }
  subst blocks.
  destruct with_nonlocal_attn; simpl in Hloop |- *; rewrite Hloop; simpl;
    rewrite Hc; simpl; exact H.
Qed.

End DecoderRefinement.

Section DecoderAccepting.

Variables (spatial_dims : Z) (channels : list Z) (in_channels out_channels : Z)
  (num_res_blocks : list Z) (norm_num_groups : Z) (norm_eps : Q)
  (attention_levels : list bool) (label_nc : Z) (with_nonlocal_attn : bool)
  (spade_intermediate_channels : Z).

Lemma res_block_with_accepting (cin cout : Z) :
  SPADEDecoder.res_block_with accepting spatial_dims norm_num_groups norm_eps
    label_nc spade_intermediate_channels cin cout
  = Ok (SPADEDecoder.res_block spatial_dims norm_num_groups norm_eps label_nc
          spade_intermediate_channels cin cout).
Proof.
  unfold SPADEDecoder.res_block_with. now rewrite res_block_init_with_accepting.
Qed.

Lemma res_body_with_accepting (ra : list bool) (i x : nat) (s : SPADEDecoder.locals) :
  SPADEDecoder.res_body_with accepting spatial_dims norm_num_groups norm_eps
    label_nc spade_intermediate_channels ra i x s
  = SPADEDecoder.res_body spatial_dims norm_num_groups norm_eps label_nc
      spade_intermediate_channels ra i x s.
Proof.
  unfold SPADEDecoder.res_body_with, SPADEDecoder.res_body.
  destruct (SPADEDecoder.read_block_in_ch s) as [cin | e]; simpl; [| reflexivity].
  rewrite res_block_with_accepting. simpl.
  destruct (getitem ra i) as [[] | e]; reflexivity.
Qed.

Lemma level_body_with_accepting (rc : list Z) (ra : list bool) (rn : list Z)
    (i : nat) (s : SPADEDecoder.locals) :
  SPADEDecoder.level_body_with accepting spatial_dims channels norm_num_groups
    norm_eps label_nc spade_intermediate_channels rc ra rn i s
  = SPADEDecoder.level_body spatial_dims channels norm_num_groups norm_eps label_nc
      spade_intermediate_channels rc ra rn i s.
Proof.
  unfold SPADEDecoder.level_body_with, SPADEDecoder.level_body.
  destruct (getitem rc i) as [w | e]; simpl; [| reflexivity].
  destruct (getitem rn i) as [n | e]; simpl; [| reflexivity].
  rewrite (for_each_ext _ _ _ (fun x s0 _ => res_body_with_accepting ra i x s0)).
  destruct (for_each _ _ _) as [s1 | e]; simpl; [| reflexivity].
  destruct (negb _); [| reflexivity].
  destruct (SPADEDecoder.read_block_in_ch s1); reflexivity.
Qed.

Lemma decoder_init_with_accepting :
  SPADEDecoder.init_with accepting spatial_dims channels in_channels out_channels
    num_res_blocks norm_num_groups norm_eps attention_levels label_nc
    with_nonlocal_attn spade_intermediate_channels
  = SPADEDecoder.init spatial_dims channels in_channels out_channels num_res_blocks
      norm_num_groups norm_eps attention_levels label_nc with_nonlocal_attn
      spade_intermediate_channels.
Proof.
  unfold SPADEDecoder.init_with, SPADEDecoder.init.
  destruct (getitem (rev channels) 0) as [c0 | e]; cbn [bind]; [| reflexivity].
  unfold construct. cbn [accepting Convolution_init bind].
  destruct with_nonlocal_attn.
  - rewrite !res_block_with_accepting.
    unfold SPADEDecoder.attn_block_with, construct.
    cbn [accepting SpatialAttentionBlock_init bind].
    rewrite (for_each_ext _ _ _
               (fun i s _ => level_body_with_accepting (rev channels)
                               (rev attention_levels) (rev num_res_blocks) i s)).
    destruct (for_each _ _ _) as [s | e]; cbn [bind]; [| reflexivity].
    destruct (SPADEDecoder.read_block_in_ch s); reflexivity.
  - cbn [bind].
    rewrite (for_each_ext _ _ _
               (fun i s _ => level_body_with_accepting (rev channels)
                               (rev attention_levels) (rev num_res_blocks) i s)).
    destruct (for_each _ _ _) as [s | e]; cbn [bind]; [| reflexivity].
    destruct (SPADEDecoder.read_block_in_ch s); reflexivity.
Qed.

End DecoderAccepting.

(** The upsampling stages of a layout are those of its levels. *)

Lemma upsample_widths_app (l1 l2 : list Module_) :
  upsample_widths (l1 ++ l2) = upsample_widths l1 ++ upsample_widths l2.
Proof. unfold upsample_widths. apply flat_map_app. Qed.

Section LayoutWidths.

Variables (spatial_dims : Z) (channels : list Z) (in_channels out_channels : Z)
  (num_res_blocks : list Z) (norm_num_groups : Z) (norm_eps : Q)
  (attention_levels : list bool) (label_nc : Z) (with_nonlocal_attn : bool)
  (spade_intermediate_channels : Z).

Lemma upsample_widths_res_run (n : nat) :
  forall (j : nat) (cin w : Z) (a : bool),
    upsample_widths
      (res_run_from spatial_dims norm_num_groups norm_eps label_nc
         spade_intermediate_channels j cin w n a) = [].
Proof.
  induction n as [| n IH]; intros j cin w a.
  - reflexivity.
  - rewrite res_run_from_S, upsample_widths_app, IH.
    now destruct a.
Qed.

Lemma upsample_widths_levels (k : nat) :
  forall i : nat,
    upsample_widths
      (concat
         (map (level_layout spatial_dims channels num_res_blocks norm_num_groups
                 norm_eps attention_levels label_nc spade_intermediate_channels)
            (seq i k)))
    = map (width_after channels num_res_blocks)
        (filter (fun i => negb (is_last_level channels i)) (seq i k)).
Proof.
  induction k as [| k IH]; intros i.
  - reflexivity.
  - rewrite <- cons_seq. simpl. rewrite upsample_widths_app, IH.
    unfold level_layout at 1, res_run.
    rewrite upsample_widths_app, upsample_widths_res_run.
    now destruct (is_last_level channels i).
Qed.

Lemma upsample_widths_layout :
  upsample_widths
    (decoder_layout spatial_dims channels in_channels out_channels num_res_blocks
       norm_num_groups norm_eps attention_levels label_nc with_nonlocal_attn
       spade_intermediate_channels)
  = map (width_after channels num_res_blocks)
      (filter (fun i => negb (is_last_level channels i))
         (seq 0 (List.length channels))).
Proof.
  unfold decoder_layout. rewrite !upsample_widths_app, upsample_widths_levels.
  unfold nonlocal_layout. destruct with_nonlocal_attn; simpl; now rewrite app_nil_r.
Qed.

End LayoutWidths.


(** The stages of a layout. *)



Section LayoutStages.

Variables (spatial_dims : Z) (channels : list Z) (in_channels out_channels : Z)
  (num_res_blocks : list Z) (norm_num_groups : Z) (norm_eps : Q)
  (attention_levels : list bool) (label_nc : Z) (with_nonlocal_attn : bool)
  (spade_intermediate_channels : Z).

Local Notation "'layout'" :=
  (decoder_layout spatial_dims channels in_channels out_channels num_res_blocks
     norm_num_groups norm_eps attention_levels label_nc with_nonlocal_attn
     spade_intermediate_channels).
Local Notation "'layout_of_level'" :=
  (level_layout spatial_dims channels num_res_blocks norm_num_groups norm_eps
     attention_levels label_nc spade_intermediate_channels).
Local Notation "'run_from'" :=
  (res_run_from spatial_dims norm_num_groups norm_eps label_nc
     spade_intermediate_channels).











End LayoutStages.


(** ** SPADEAutoencoderKL.__init__ *)

Lemma len_eqb {A B : Type} (l1 : list A) (l2 : list B) :
  (len l1 =? len l2) = true <-> List.length l1 = List.length l2.
Proof.
  unfold len. rewrite Z.eqb_eq. split; [apply Nat2Z.inj | congruence].
Qed.

Lemma any_not_multiple_spec (channels : list Z) (g : Z) :
  g <> 0 ->
  (any_not_multiple channels g = Ok true /\ not_divisible channels g)
  \/ (any_not_multiple channels g = Ok false /\ ~ not_divisible channels g).
Proof.
  intros Hg. unfold not_divisible.
  induction channels as [| c cs IH]; simpl.
  - right. split; [reflexivity |]. intros (c & [] & _).
  - unfold py_mod. rewrite (proj2 (Z.eqb_neq g 0) Hg). simpl.
    destruct (c mod g =? 0) eqn:E; simpl.
    + apply Z.eqb_eq in E.
      destruct IH as [(-> & c' & Hin & Hc') | (-> & Hno)].
      * left. split; [reflexivity |]. exists c'. split; [now right | exact Hc'].
      * right. split; [reflexivity |]. intros (c' & [<- | Hin] & Hc').
        -- contradiction.
        -- apply Hno. now exists c'.
    + apply Z.eqb_neq in E. left. split; [reflexivity |].
      exists c. split; [now left | exact E].
Qed.

Section ModelInit.

Variables (spatial_dims label_nc in_channels out_channels : Z)
  (num_res_blocks : int_or_seq) (channels : list Z) (attention_levels : list bool)
  (latent_channels : Z) (norm_num_groups : Z) (norm_eps : Q)
  (with_encoder_nonlocal_attn with_decoder_nonlocal_attn : bool)
  (spade_intermediate_channels : Z).

Local Notation "'checks'" :=
  (SPADEAutoencoderKL.validate num_res_blocks channels attention_levels
     norm_num_groups).
Local Notation "'some_failure'" :=
  (not_divisible channels norm_num_groups
   \/ attention_mismatch channels attention_levels
   \/ res_blocks_mismatch num_res_blocks channels).

Local Notation "'broadcast_list'" := (res_blocks_list num_res_blocks channels).

(** The checks either raise a [ValueError], and one of the three failures
    holds, or pass, and none does. *)
Lemma validate_cases :
  norm_num_groups <> 0 ->
  ((exists msg, checks = Raise (ValueError msg)) /\ some_failure)
  \/ (checks = Ok broadcast_list
      /\ ~ some_failure
      /\ List.length broadcast_list = List.length channels
      /\ List.length attention_levels = List.length channels).
Proof.
  intros Hg. unfold SPADEAutoencoderKL.validate.
  destruct (any_not_multiple_spec channels norm_num_groups Hg)
    as [(-> & H1) | (-> & H1)]; simpl.
  { left. split; [eauto | now left]. }
  destruct (len channels =? len attention_levels) eqn:E2; simpl.
  2:{ left. split; [eauto |]. right. left. unfold attention_mismatch.
      intros H. apply len_eqb in H. congruence. }
  apply len_eqb in E2.
  fold broadcast_list.
  destruct (len broadcast_list =? len channels) eqn:E3; simpl.
  2:{ left. split; [eauto |]. right. right.
      unfold res_blocks_mismatch, res_blocks_list in *.
      destruct num_res_blocks as [n | l].
      - unfold ensure_tuple_rep, len in E3.
        rewrite repeat_length, Nat2Z.id, Z.eqb_refl in E3. discriminate E3.
      - intros H. apply len_eqb in H. congruence. }
  apply len_eqb in E3.
  right. split; [reflexivity |]. split; [| split; [exact E3 | now symmetry]].
  intros [H | [H | H]].
  - contradiction.
  - now apply H.
  - unfold res_blocks_mismatch, res_blocks_list in *.
    destruct num_res_blocks; [exact H | now apply H].
Qed.

End ModelInit.

(** *** The imported constructors run *)

Section ModelRefinement.

Variable K : constructors.

Variables (spatial_dims label_nc in_channels out_channels : Z)
  (num_res_blocks : int_or_seq) (channels : list Z) (attention_levels : list bool)
  (latent_channels : Z) (norm_num_groups : Z) (norm_eps : Q)
  (with_encoder_nonlocal_attn with_decoder_nonlocal_attn : bool)
  (spade_intermediate_channels : Z).

(** A model that is constructed with the imported constructors run is the
    model [init] assembles. *)
Lemma model_init_with_ok (self : SPADEAutoencoderKL.t) :
  SPADEAutoencoderKL.init_with K spatial_dims label_nc in_channels out_channels
    num_res_blocks channels attention_levels latent_channels norm_num_groups
    norm_eps with_encoder_nonlocal_attn with_decoder_nonlocal_attn
    spade_intermediate_channels = Ok self ->
  SPADEAutoencoderKL.init spatial_dims label_nc in_channels out_channels
    num_res_blocks channels attention_levels latent_channels norm_num_groups
    norm_eps with_encoder_nonlocal_attn with_decoder_nonlocal_attn
    spade_intermediate_channels = Ok self.
Proof.
  unfold SPADEAutoencoderKL.init_with, SPADEAutoencoderKL.init. intros H.
  apply bind_ok in H as (l & -> & H). simpl.
  apply bind_ok in H as (e & He & H). apply construct_ok in He as (-> & _).
  apply bind_ok in H as (d & Hd & H). apply decoder_init_with_ok in Hd as ->. simpl.
  apply bind_ok in H as (c1 & H1 & H). apply construct_ok in H1 as (-> & _).
  apply bind_ok in H as (c2 & H1 & H). apply construct_ok in H1 as (-> & _).
  apply bind_ok in H as (c3 & H1 & H). apply construct_ok in H1 as (-> & _).
  exact H.
Qed.

End ModelRefinement.

(** With constructors that return on every argument, [init_with] is
    [init]. *)
Lemma model_init_with_accepting (spatial_dims label_nc in_channels out_channels : Z)
    (num_res_blocks : int_or_seq) (channels : list Z) (attention_levels : list bool)
    (latent_channels : Z) (norm_num_groups : Z) (norm_eps : Q)
    (with_encoder_nonlocal_attn with_decoder_nonlocal_attn : bool)
    (spade_intermediate_channels : Z) :
  SPADEAutoencoderKL.init_with accepting spatial_dims label_nc in_channels
    out_channels num_res_blocks channels attention_levels latent_channels
    norm_num_groups norm_eps with_encoder_nonlocal_attn with_decoder_nonlocal_attn
    spade_intermediate_channels
  = SPADEAutoencoderKL.init spatial_dims label_nc in_channels out_channels
      num_res_blocks channels attention_levels latent_channels norm_num_groups
      norm_eps with_encoder_nonlocal_attn with_decoder_nonlocal_attn
      spade_intermediate_channels.
Proof.
  unfold SPADEAutoencoderKL.init_with, SPADEAutoencoderKL.init.
  destruct (SPADEAutoencoderKL.validate _ _ _ _) as [l | e]; simpl; [| reflexivity].
  rewrite decoder_init_with_accepting.
  destruct (SPADEDecoder.init _ _ _ _ _ _ _ _ _ _ _); reflexivity.
Qed.

Section ModelInitWith.

Variable K : constructors.

Variables (spatial_dims label_nc in_channels out_channels : Z)
  (num_res_blocks : int_or_seq) (channels : list Z) (attention_levels : list bool)
  (latent_channels : Z) (norm_num_groups : Z) (norm_eps : Q)
  (with_encoder_nonlocal_attn with_decoder_nonlocal_attn : bool)
  (spade_intermediate_channels : Z).

Local Notation "'checks'" :=
  (SPADEAutoencoderKL.validate num_res_blocks channels attention_levels
     norm_num_groups).
Local Notation "'construction_with'" :=
  (SPADEAutoencoderKL.init_with K spatial_dims label_nc in_channels out_channels
     num_res_blocks channels attention_levels latent_channels norm_num_groups
     norm_eps with_encoder_nonlocal_attn with_decoder_nonlocal_attn
     spade_intermediate_channels).
Local Notation "'some_failure'" :=
  (not_divisible channels norm_num_groups
   \/ attention_mismatch channels attention_levels
   \/ res_blocks_mismatch num_res_blocks channels).
Local Notation "'broadcast_list'" := (res_blocks_list num_res_blocks channels).

(** What the checks raise, the construction raises: no imported
    constructor is called before them. *)
Lemma checks_raise_first (e : exn) :
  checks = Raise e -> construction_with = Raise e.
Proof.
  intros H. unfold SPADEAutoencoderKL.init_with. now rewrite H.
Qed.

(** C3, as amended. For a non-zero [norm_num_groups], the checks of the
    constructor fail, with a [ValueError], exactly when (1) some channel is
    not a multiple of [norm_num_groups], or (2) [channels] and
    [attention_levels] differ in length, or (3) [num_res_blocks] is a
    sequence of another length than [channels]. Construction then raises
    that [ValueError], before any sub-module is built and so whatever the
    imported constructors do, and a model that is constructed has none of
    the three. A single integer is broadcast to [len(channels)] entries, so
    that (3) cannot hold for it. *)
Theorem construction_fails_on_the_checks :
  norm_num_groups <> 0 ->
  ((exists msg, checks = Raise (ValueError msg)) <-> some_failure)
  /\ (forall e, checks = Raise e ->
        (exists msg, e = ValueError msg) /\ construction_with = Raise e)
  /\ (some_failure ->
        exists msg, checks = Raise (ValueError msg)
                    /\ construction_with = Raise (ValueError msg))
  /\ (forall self, construction_with = Ok self -> ~ some_failure)
  /\ (forall n, num_res_blocks = AnInt n ->
        broadcast_list = repeat n (List.length channels)
        /\ List.length broadcast_list = List.length channels
        /\ ~ res_blocks_mismatch num_res_blocks channels).
Proof.
  intros Hg.
  pose proof (validate_cases num_res_blocks channels attention_levels
                norm_num_groups Hg) as Hcases.
  split; [| split; [| split; [| split]]].
  - split.
    + intros (msg & Hv).
      destruct Hcases as [(_ & Hf) | (Hok & _)]; [exact Hf | congruence].
    + intros Hf. destruct Hcases as [(Hv & _) | (_ & Hno & _)];
        [exact Hv | contradiction].
  - intros e He. split; [| now apply checks_raise_first].
    destruct Hcases as [((msg & Hv) & _) | (Hok & _)]; [| congruence].
    exists msg. congruence.
  - intros Hf. destruct Hcases as [((msg & Hv) & _) | (_ & Hno & _)];
      [| contradiction].
    exists msg. split; [exact Hv | now apply checks_raise_first].
  - intros self Hself Hf.
    destruct Hcases as [((msg & Hv) & _) | (_ & Hno & _)]; [| contradiction].
    apply checks_raise_first in Hv. congruence.
  - intros n En. unfold res_blocks_list, res_blocks_mismatch. rewrite En.
    unfold ensure_tuple_rep, len. rewrite Nat2Z.id, repeat_length.
    split; [reflexivity | split; [reflexivity | tauto]].
Qed.

End ModelInitWith.

(** The channels (32, 50) with 32 groups are refused by the first check. *)
Lemma construction_fails_on_the_checks_scenario :
  not_divisible [32; 50] 32
  /\ exists msg,
       SPADEAutoencoderKL.init_with accepting 2 2 1 1 (AnInt 2) [32; 50]
         [false; false] 3 32 default_norm_eps true true 128
       = Raise (ValueError msg).
Proof.
  assert (H : not_divisible [32; 50] 32).
  { exists 50. split; [simpl; tauto | discriminate]. }
  split; [exact H |].
  destruct (construction_fails_on_the_checks accepting 2 2 1 1 (AnInt 2) [32; 50]
              [false; false] 3 32 default_norm_eps true true 128
              ltac:(discriminate))
    as (_ & _ & Hf & _).
  destruct (Hf (or_introl H)) as (msg & _ & Hc).
  now exists msg.
Defined.

(** C3, as stated, fails on an empty [channels]: none of the three
    conditions holds, and yet no model is constructed, whatever the
    imported constructors do: either [Encoder] raises, or the decoder does
    at [reversed_block_out_channels[0]]. *)
Lemma empty_channels_fail_unchecked :
  ~ (not_divisible [] 32
     \/ attention_mismatch [] []
     \/ res_blocks_mismatch (AnInt 2) [])
  /\ forall K : constructors,
       raises (SPADEAutoencoderKL.init_with K 2 2 1 1 (AnInt 2) [] [] 3 32
                 default_norm_eps true true 128).
Proof.
  split.
  - intros [(c & [] & _) | [H | []]]. now apply H.
  - intros K. unfold SPADEAutoencoderKL.init_with, construct. simpl.
    destruct (Encoder_init K _) as [[] | e]; simpl.
    + exists IndexError. reflexivity.
    + now exists e.
Qed.

(** ** SPADEDecoder.forward *)


Section ForwardFacts.

Context {Tensor : Type} {torch : Torch Tensor}.

Lemma run_blocks_app (l1 l2 : list Module_) (sd : state_dict Params) (seg : Tensor) :
  forall (i : nat) (x : Tensor),
    run_blocks i (l1 ++ l2) sd x seg
    = run_blocks (i + List.length l1) l2 sd (run_blocks i l1 sd x seg) seg.
Proof.
  induction l1 as [| b l1 IH]; intros i x; simpl.
  - now rewrite Nat.add_0_r.
  - rewrite IH. f_equal. lia.
Qed.

Lemma call_block_invoked (block : Module_) (sd : state_dict Params) (x seg : Tensor) :
  invoked sd block (passed_args block x seg) (call_block block sd x seg).
Proof.
  destruct block; unfold passed_args; simpl; constructor.
Qed.

Lemma run_blocks_applied (blocks : list Module_) (sd : state_dict Params)
    (seg : Tensor) :
  forall (i : nat) (x : Tensor),
    applied_in_order sd seg i blocks x (run_blocks i blocks sd x seg).
Proof.
  induction blocks as [| block rest IH]; intros i x; simpl.
  - constructor.
  - econstructor; [apply call_block_invoked | apply IH].
Qed.

Lemma invoked_args (sd : state_dict Params) (block : Module_) (args : list Tensor)
    (y : Tensor) :
  invoked sd block args y ->
  (isinstance_SPADEResBlock block = true /\ List.length args = 2%nat)
  \/ (isinstance_SPADEResBlock block = false /\ List.length args = 1%nat).
Proof.
  intros H. destruct H; simpl; auto.
Qed.

(** C7. [SPADEDecoder.forward] invokes the blocks of the assembled
    sequence in order, each on the output of the previous one; a block is
    invoked with the two arguments [(x, seg)] if and only if it is a
    [SPADEResBlock], and every other block -- convolution, attention,
    upsample, group norm -- is invoked with [x] alone. *)
Theorem decoder_forward_dispatch (self : SPADEDecoder.t) (sd : state_dict Params)
    (x seg : Tensor) :
  applied_in_order (sub (Attr "blocks") sd) seg 0 (SPADEDecoder.blocks self) x
    (SPADEDecoder_forward self sd x seg)
  /\ (forall (block : Module_) (x' : Tensor),
        (passed_args block x' seg = [x'; seg]
         <-> exists b, block = MSPADEResBlock b)
        /\ (passed_args block x' seg = [x']
            <-> forall b, block <> MSPADEResBlock b)).
Proof.
  split.
  - apply run_blocks_applied.
  - intros block x'. unfold passed_args.
    destruct block; simpl; (split; split; intros H);
      try discriminate H; try reflexivity; eauto;
      try (destruct H as (b' & H); discriminate H);
      try (intros b' Hb; discriminate Hb).
    exfalso. now apply (H b).
Qed.

(** C6. [reconstruct] is [decode] at the mean of [encode]; the state of the
    random generator comes out as it went in, and the value does not depend
    on it. *)
Theorem reconstruct_is_decode_of_mean (self : SPADEAutoencoderKL.t)
    (sd : state_dict Params) (x seg : Tensor) (g : Generator) :
  reconstruct self sd x seg g
  = (fst (decode self sd (fst (fst (encode self sd x g))) seg g), g)
  /\ (forall g' : Generator,
        fst (reconstruct self sd x seg g') = fst (reconstruct self sd x seg g)).
Proof.
  unfold reconstruct, mbind.
  assert (He : forall g0, snd (encode self sd x g0) = g0
                          /\ fst (encode self sd x g0) = fst (encode self sd x g))
    by (intros g0; split; reflexivity).
  assert (Hd : forall z g0, snd (decode self sd z seg g0) = g0
                            /\ fst (decode self sd z seg g0)
                               = fst (decode self sd z seg g))
    by (intros z g0; split; reflexivity).
  split.
  - destruct (encode self sd x g) as [r g1] eqn:E.
    pose proof (He g) as (He1 & _). rewrite E in He1. simpl in He1. subst g1.
    simpl. destruct (decode self sd (fst r) seg g) as [y g2] eqn:D.
    pose proof (Hd (fst r) g) as (Hd1 & _). rewrite D in Hd1. simpl in Hd1.
    now subst g2.
  - intros g'. reflexivity.
Qed.

End ForwardFacts.

(** ** Values *)

Lemma clamp_bounds (v lo hi : R) :
  (lo <= hi)%R -> (lo <= clamp v lo hi <= hi)%R.
Proof.
  intros H. unfold clamp, Rmin, Rmax.
  destruct (Rle_dec v lo); destruct (Rle_dec _ hi); lra.
Qed.

Lemma clamp_below (v lo hi : R) :
  (lo <= hi)%R -> (v < lo)%R -> clamp v lo hi = lo.
Proof.
  intros H Hv. unfold clamp, Rmin, Rmax.
  destruct (Rle_dec v lo); destruct (Rle_dec _ hi); lra.
Qed.

Lemma clamp_above (v lo hi : R) :
  (lo <= hi)%R -> (hi < v)%R -> clamp v lo hi = hi.
Proof.
  intros H Hv. unfold clamp, Rmin, Rmax.
  destruct (Rle_dec v lo); destruct (Rle_dec _ hi); lra.
Qed.

Lemma clamp_inside (v lo hi : R) :
  (lo <= v <= hi)%R -> clamp v lo hi = v.
Proof.
  intros H. unfold clamp, Rmin, Rmax.
  destruct (Rle_dec v lo); destruct (Rle_dec _ hi); lra.
Qed.

Lemma exp_le (a b : R) : (a <= b)%R -> (exp a <= exp b)%R.
Proof.
  intros [H | ->].
  - left. now apply exp_increasing.
  - right. reflexivity.
Qed.

Section ValueFacts.

Variables (Pos P G : Type)
  (randn_like : RTensor Pos -> G -> RTensor Pos * G)
  (convolution : Convolution -> state_dict P -> RTensor Pos -> RTensor Pos)
  (spade : SPADE -> state_dict P -> RTensor Pos -> RTensor Pos -> RTensor Pos)
  (attention : SpatialAttentionBlock -> state_dict P -> RTensor Pos -> RTensor Pos)
  (upsample : Upsample -> state_dict P -> RTensor Pos -> RTensor Pos)
  (groupnorm : GroupNorm -> state_dict P -> RTensor Pos -> RTensor Pos)
  (encoder_net : Encoder -> state_dict P -> RTensor Pos -> RTensor Pos).

Local Notation "'real_torch'" :=
  (RealTorch randn_like convolution spade attention upsample groupnorm encoder_net).

(** C2. [SPADEResBlock.forward] returns
    [shortcut(x) + conv2(silu(norm2(conv1(silu(norm1(x, seg))), seg)))]:
    [silu] is [v * sigmoid(v)] at every position, applied after each SPADE
    normalisation and before each convolution, and the shortcut is the
    identity when [in_channels] equals the output width and otherwise a 1x1
    convolution of stride 1 from [in_channels] to the output width. *)
Theorem res_block_forward_formula (spatial_dims in_channels norm_num_groups : Z)
    (norm_eps : Q) (out_channels : option Z)
    (label_nc spade_intermediate_channels : Z) (sd : state_dict P)
    (x seg : RTensor Pos) :
  let self := SPADEResBlock.init spatial_dims in_channels norm_num_groups norm_eps
                out_channels label_nc spade_intermediate_channels in
  let shortcut :=
    if in_channels =? SPADEResBlock.out_channels self then fun t => t
    else convolution
           {| conv_spatial_dims := spatial_dims;
              conv_in_channels := in_channels;
              conv_out_channels := SPADEResBlock.out_channels self;
              conv_strides := 1;
              conv_kernel_size := 1;
              conv_padding := 0;
              conv_conv_only := true |}
           (sub (Attr "nin_shortcut") sd) in
  let norm1 := spade (SPADEResBlock.norm1 self) (sub (Attr "norm1") sd) in
  let conv1 := convolution (SPADEResBlock.conv1 self) (sub (Attr "conv1") sd) in
  let norm2 := spade (SPADEResBlock.norm2 self) (sub (Attr "norm2") sd) in
  let conv2 := convolution (SPADEResBlock.conv2 self) (sub (Attr "conv2") sd) in
  (forall p : Pos,
     SPADEResBlock_forward (torch := real_torch) self sd x seg p
     = (shortcut x p
        + conv2 (silu (norm2 (conv1 (silu (norm1 x seg))) seg)) p)%R)
  /\ (forall (t : RTensor Pos) (p : Pos),
        silu t p = (t p * (1 / (1 + exp (- t p))))%R).
Proof.
  intros self shortcut norm1 conv1 norm2 conv2. split.
  - intros p. subst shortcut norm1 conv1 norm2 conv2 self.
    unfold SPADEResBlock_forward. rewrite init_shortcut.
    destruct (in_channels =? _); reflexivity.
  - intros t p. reflexivity.
Qed.

(** C5. [sampling] returns [mean + noise * sigma], the noise being what
    [randn_like(sigma)] draws; with [sigma] filled with zeros the result is
    [mean] at every position, whatever the noise. *)
Theorem sampling_with_zero_sigma (z_mu z_sigma : RTensor Pos) (g : G) (p : Pos) :
  fst (sampling (torch := real_torch) z_mu z_sigma g) p
  = (z_mu p + fst (randn_like z_sigma g) p * z_sigma p)%R
  /\ snd (sampling (torch := real_torch) z_mu z_sigma g) = snd (randn_like z_sigma g)
  /\ fst (sampling (torch := real_torch) z_mu zeros g) p = z_mu p.
Proof.
  unfold sampling, mbind, ret. simpl.
  split; [| split].
  - now destruct (randn_like z_sigma g).
  - now destruct (randn_like z_sigma g).
  - destruct (randn_like zeros g) as [eps g']. simpl.
    unfold zeros. ring.
Qed.

End ValueFacts.

(** ** Values: floating-point elements *)

Lemma fclamp_finite (v : fval) (lo hi : R) :
  (lo <= hi)%R -> v <> NaN ->
  exists c, fclamp v lo hi = Finite c /\ (lo <= c <= hi)%R.
Proof.
  intros Hlh Hv. destruct v as [r | | |]; simpl.
  - exists (clamp r lo hi). split; [reflexivity | now apply clamp_bounds].
  - exists hi. split; [reflexivity | lra].
  - exists (Rmin lo hi). split; [reflexivity |].
    rewrite Rmin_left by exact Hlh. lra.
  - contradiction.
Qed.

Section FloatFacts.

Variables (Pos P G : Type) (round : R -> R) (largest : R)
  (add mul : fval -> fval -> fval)
  (silu_elem : fval -> fval)
  (randn_like : FTensor Pos -> G -> FTensor Pos * G)
  (convolution : Convolution -> state_dict P -> FTensor Pos -> FTensor Pos)
  (spade : SPADE -> state_dict P -> FTensor Pos -> FTensor Pos -> FTensor Pos)
  (attention : SpatialAttentionBlock -> state_dict P -> FTensor Pos -> FTensor Pos)
  (upsample : Upsample -> state_dict P -> FTensor Pos -> FTensor Pos)
  (groupnorm : GroupNorm -> state_dict P -> FTensor Pos -> FTensor Pos)
  (encoder_net : Encoder -> state_dict P -> FTensor Pos -> FTensor Pos).

Local Notation "'float_torch'" :=
  (FloatTorch round largest add mul silu_elem randn_like convolution spade
     attention upsample groupnorm encoder_net).

(** The element type rounds monotonically, holds -15 and 10 and goes at
    least to 15; [exp(-15)] does not underflow in it and [exp(10)] does not
    overflow. *)
Hypothesis round_monotone : forall a b : R, (a <= b)%R -> (round a <= round b)%R.

Hypothesis round_low : round (-15) = (-15)%R.

Hypothesis round_high : round 10 = 10%R.

Hypothesis largest_bound : (15 <= largest)%R.

Hypothesis exp_low_positive : (0 < round (exp (-15)))%R.

Hypothesis exp_high_finite : (round (exp 10) <= largest)%R.

Lemma half_finite (c : R) :
  (-30 <= c <= 20)%R ->
  exists h, fdiv round largest (Finite c) 2 = Finite h /\ (-15 <= h <= 10)%R.
Proof.
  intros Hc. exists (round (c / 2)).
  assert (Hl : (round (-15) <= round (c / 2))%R) by (apply round_monotone; lra).
  assert (Hh : (round (c / 2) <= round 10)%R) by (apply round_monotone; lra).
  rewrite round_low in Hl. rewrite round_high in Hh.
  split; [| lra].
  unfold fdiv, rounded. cbn [Z.eqb].
  destruct (Rlt_dec largest (round (c / 2))); [lra |].
  destruct (Rlt_dec (round (c / 2)) (- largest)); [lra | reflexivity].
Qed.

Lemma exp_finite (h : R) :
  (-15 <= h <= 10)%R ->
  exists s, fexp round largest (Finite h) = Finite s
            /\ (round (exp (-15)) <= s <= round (exp 10))%R.
Proof.
  intros Hh. exists (round (exp h)).
  assert (Hl : (round (exp (-15)) <= round (exp h))%R)
    by (apply round_monotone, exp_le; lra).
  assert (Hu : (round (exp h) <= round (exp 10))%R)
    by (apply round_monotone, exp_le; lra).
  split; [| lra].
  unfold fexp, rounded.
  destruct (Rlt_dec largest (round (exp h))); [lra |].
  destruct (Rlt_dec (round (exp h)) (- largest)); [lra | reflexivity].
Qed.

(** C4, as amended. [encode] applies the two 1x1 convolutions
    [quant_conv_mu] and [quant_conv_log_sigma] to the one output of the
    encoder, clamps the log-variance to [-30, 20] -- a value below, or
    minus infinity, becomes -30, a value above, or plus infinity, becomes
    20, a value inside is kept -- and returns [sigma = exp(clamped / 2)].
    Where the raw log-variance is not NaN, sigma is finite and positive,
    between the values the element type has for [exp(-15)] and [exp(10)];
    where it is NaN, the clamp passes it through and sigma is NaN. *)
Theorem encode_sigma_unless_nan (self : SPADEAutoencoderKL.t) (sd : state_dict P)
    (x : FTensor Pos) (g : G) (p : Pos) :
  let h := encoder_net (SPADEAutoencoderKL.encoder self) (sub (Attr "encoder") sd) x in
  let raw := convolution (SPADEAutoencoderKL.quant_conv_log_sigma self)
               (sub (Attr "quant_conv_log_sigma") sd) h in
  let z_mu := fst (fst (encode (torch := float_torch) self sd x g)) in
  let z_sigma := snd (fst (encode (torch := float_torch) self sd x g)) in
  let clamped := fclamp (raw p) (-30) 20 in
  z_mu = convolution (SPADEAutoencoderKL.quant_conv_mu self)
           (sub (Attr "quant_conv_mu") sd) h
  /\ z_sigma p = fexp round largest (fdiv round largest clamped 2)
  /\ (forall v, raw p = Finite v -> (v < -30)%R -> clamped = Finite (-30))
  /\ (forall v, raw p = Finite v -> (20 < v)%R -> clamped = Finite 20)
  /\ (forall v, raw p = Finite v -> (-30 <= v <= 20)%R -> clamped = Finite v)
  /\ (raw p = NegInf -> clamped = Finite (-30))
  /\ (raw p = PosInf -> clamped = Finite 20)
  /\ (raw p = NaN -> clamped = NaN /\ z_sigma p = NaN)
  /\ (raw p <> NaN ->
      (exists c, clamped = Finite c /\ (-30 <= c <= 20)%R)
      /\ exists s,
           z_sigma p = Finite s
           /\ (round (exp (-15)) <= s <= round (exp 10))%R
           /\ (0 < s)%R).
Proof.
  intros h raw z_mu z_sigma clamped.
  assert (Hs : z_sigma p = fexp round largest (fdiv round largest clamped 2))
    by reflexivity.
  split; [reflexivity |]. split; [exact Hs |].
  split; [intros v Hv Hlt; subst clamped; rewrite Hv; simpl;
          now rewrite clamp_below by lra |].
  split; [intros v Hv Hlt; subst clamped; rewrite Hv; simpl;
          now rewrite clamp_above by lra |].
  split; [intros v Hv Hin; subst clamped; rewrite Hv; simpl;
          now rewrite clamp_inside by lra |].
  split; [intros Hv; subst clamped; rewrite Hv; simpl;
          now rewrite Rmin_left by lra |].
  split; [intros Hv; subst clamped; now rewrite Hv |].
  split.
  - intros Hv. assert (Hc : clamped = NaN) by (subst clamped; now rewrite Hv).
    split; [exact Hc |]. rewrite Hs, Hc. reflexivity.
  - intros Hv.
    destruct (fclamp_finite (raw p) (-30) 20 ltac:(lra) Hv) as (c & Hc & Hcb).
    fold clamped in Hc.
    split; [now exists c |].
    destruct (half_finite c Hcb) as (hf & Hhf & Hhb).
    destruct (exp_finite hf Hhb) as (s & Hsf & Hsb).
    exists s. rewrite Hs, Hc, Hhf, Hsf.
    split; [reflexivity | split; [exact Hsb | lra]].
Qed.

End FloatFacts.

(** A substrate over one position whose modules are identities, with an
    element type that rounds nothing: the raw log-variance is the input
    itself. On the input 25 sigma is finite and positive. *)
Lemma encode_sigma_unless_nan_identity_modules :
  match SPADEAutoencoderKL.init 2 2 1 1 (AnInt 2) [32; 64] [false; false] 3 32
          default_norm_eps true true 128 with
  | Ok self =>
      let torch :=
        FloatTorch (Pos := unit) (P := unit) (G := unit)
          (fun r => r) (15 + exp 10)%R (fun a _ => a) (fun a _ => a) (fun a => a)
          (fun t g => (t, g)) (fun _ _ t => t) (fun _ _ t _ => t) (fun _ _ t => t)
          (fun _ _ t => t) (fun _ _ t => t) (fun _ _ t => t) in
      exists s,
        snd (fst (encode (torch := torch) self no_params (fun _ => Finite 25) tt)) tt
        = Finite s
        /\ (0 < s)%R
  | Raise _ => False
  end.
Proof.
  destruct (SPADEAutoencoderKL.init 2 2 1 1 (AnInt 2) [32; 64] [false; false] 3 32
              default_norm_eps true true 128) as [self | e] eqn:E.
  - pose proof (exp_pos 10) as He.
    destruct (encode_sigma_unless_nan unit unit unit (fun r => r) (15 + exp 10)%R
                (fun a _ => a) (fun a _ => a) (fun a => a) (fun t g => (t, g))
                (fun _ _ t => t) (fun _ _ t _ => t) (fun _ _ t => t)
                (fun _ _ t => t) (fun _ _ t => t) (fun _ _ t => t)
                ltac:(intros a b H; exact H) ltac:(reflexivity) ltac:(reflexivity)
                ltac:(lra) ltac:(apply exp_pos) ltac:(lra)
                self no_params (fun _ => Finite 25) tt tt)
      as (_ & _ & _ & _ & _ & _ & _ & _ & H).
    destruct (H ltac:(discriminate)) as (_ & s & Hs & _ & Hpos).
    exists s. split; [exact Hs | exact Hpos].
  - vm_compute in E. discriminate E.
Defined.

(** C4, as stated, fails on a NaN: with the same substrate, an input that
    is NaN has a NaN raw log-variance, the clamp passes it through and
    sigma is NaN, neither positive nor finite. *)
Lemma nan_log_variance_gives_nan_sigma :
  match SPADEAutoencoderKL.init 2 2 1 1 (AnInt 2) [32; 64] [false; false] 3 32
          default_norm_eps true true 128 with
  | Ok self =>
      let torch :=
        FloatTorch (Pos := unit) (P := unit) (G := unit)
          (fun r => r) (15 + exp 10)%R (fun a _ => a) (fun a _ => a) (fun a => a)
          (fun t g => (t, g)) (fun _ _ t => t) (fun _ _ t _ => t) (fun _ _ t => t)
          (fun _ _ t => t) (fun _ _ t => t) (fun _ _ t => t) in
      let z_sigma :=
        snd (fst (encode (torch := torch) self no_params (fun _ => NaN) tt)) in
      z_sigma tt = NaN
      /\ ~ (exists s, z_sigma tt = Finite s /\ (exp (-15) <= s <= exp 10)%R)
  | Raise _ => False
  end.
Proof.
  destruct (SPADEAutoencoderKL.init 2 2 1 1 (AnInt 2) [32; 64] [false; false] 3 32
              default_norm_eps true true 128) as [self | e] eqn:E.
  - assert (H : snd (fst (encode
                            (torch := FloatTorch (Pos := unit) (P := unit) (G := unit)
                                        (fun r => r) (15 + exp 10)%R (fun a _ => a)
                                        (fun a _ => a) (fun a => a)
                                        (fun t g => (t, g)) (fun _ _ t => t)
                                        (fun _ _ t _ => t) (fun _ _ t => t)
                                        (fun _ _ t => t) (fun _ _ t => t)
                                        (fun _ _ t => t))
                            self no_params (fun _ => NaN) tt)) tt = NaN)
      by reflexivity.
    cbv zeta. split; [exact H |].
    intros (s & Hs & _). rewrite H in Hs. discriminate Hs.
  - vm_compute in E. discriminate E.
Qed.

(** ** Shapes *)

Lemma broadcast_rev_same (l : list Z) : broadcast_rev l l = Some l.
Proof.
  induction l as [| x l IH]; simpl.
  - reflexivity.
  - now rewrite IH, Z.eqb_refl.
Qed.

Lemma broadcast_same (s : Shape) : broadcast (Some s) (Some s) = Some s.
Proof.
  unfold broadcast. rewrite broadcast_rev_same. simpl. now rewrite rev_involutive.
Qed.

Lemma map_same (f : Z -> Z) (sp : list Z) :
  (forall d, f d = d) -> map f sp = sp.
Proof.
  intros H. rewrite <- (map_id sp) at 2. apply map_ext. exact H.
Qed.

Lemma len_map (f : Z -> Z) (sp : list Z) : len (map f sp) = len sp.
Proof. unfold len. now rewrite length_map. Qed.

Lemma iter_half (k : nat) :
  forall d : Z, Nat.iter k (fun d => d / 2) (d * 2 ^ Z.of_nat k) = d.
Proof.
  induction k as [| k IH]; intros d.
  - simpl. lia.
  - change (Nat.iter (S k) (fun d => d / 2) (d * 2 ^ Z.of_nat (S k)))
      with (Nat.iter k (fun d => d / 2) (d * 2 ^ Z.of_nat (S k)) / 2).
    rewrite Nat2Z.inj_succ, Z.pow_succ_r by lia.
    replace (d * (2 * 2 ^ Z.of_nat k)) with ((d * 2) * 2 ^ Z.of_nat k) by ring.
    rewrite IH. apply Z.div_mul. lia.
Qed.

Section ShapeFacts.

Variables (spatial_dims : Z) (norm_num_groups : Z) (norm_eps : Q) (label_nc : Z)
  (spade_intermediate_channels : Z).

Variable encoder_shape : Encoder -> option Shape -> option Shape.

Variables (b : Z) (seg_sp : list Z).

Hypothesis seg_rank : len seg_sp = spatial_dims.

Local Notation "'shapes'" := (ShapeTorchWith encoder_shape).
Local Notation "'seg'" := (Some (b :: label_nc :: seg_sp)).
Local Notation "'res'" :=
  (SPADEDecoder.res_block spatial_dims norm_num_groups norm_eps label_nc
     spade_intermediate_channels).
Local Notation "'attn'" :=
  (SPADEDecoder.attn_block spatial_dims norm_num_groups norm_eps).

Lemma conv_shape_same (cin cout k p : Z) (only : bool) (sp : list Z) :
  len sp = spatial_dims ->
  2 * p - k + 1 = 0 ->
  Convolution_shape
    {| conv_spatial_dims := spatial_dims;
       conv_in_channels := cin;
       conv_out_channels := cout;
       conv_strides := 1;
       conv_kernel_size := k;
       conv_padding := p;
       conv_conv_only := only |}
    (Some (b :: cin :: sp))
  = Some (b :: cout :: sp).
Proof.
  intros Hsp Hk. unfold Convolution_shape.
  cbn [conv_spatial_dims conv_in_channels conv_out_channels conv_strides
       conv_kernel_size conv_padding].
  rewrite Z.eqb_refl, Hsp, Z.eqb_refl. cbn [andb].
  do 3 f_equal. apply map_same. intros d. rewrite Z.div_1_r. lia.
Qed.

Lemma spade_shape_same (g : Z) (eps : Q) (hidden k c : Z) (norm : string)
    (affine : bool) (sp : list Z) :
  len sp = spatial_dims ->
  SPADE_shape
    {| spade_label_nc := label_nc;
       spade_norm_nc := Some c;
       spade_norm := norm;
       spade_num_groups := g;
       spade_affine := affine;
       spade_eps := eps;
       spade_hidden_channels := hidden;
       spade_kernel_size := k;
       spade_spatial_dims := spatial_dims |}
    (Some (b :: c :: sp)) seg
  = Some (b :: c :: sp).
Proof.
  intros Hsp. unfold SPADE_shape.
  cbn [spade_norm_nc spade_label_nc spade_spatial_dims].
  now rewrite !Z.eqb_refl, Hsp, seg_rank, Z.eqb_refl.
Qed.

Lemma res_block_shape (sd : state_dict unit) (cin cout : Z) (sp : list Z) :
  len sp = spatial_dims ->
  call_block (torch := shapes) (res cin cout) sd (Some (b :: cin :: sp)) seg
  = Some (b :: cout :: sp).
Proof.
  intros Hsp. unfold SPADEDecoder.res_block, call_block, SPADEResBlock_forward.
  rewrite init_shortcut.
  cbn [SPADE_forward Convolution_forward F_silu torch_add ShapeTorchWith
       SPADEResBlock.init SPADEResBlock.norm1 SPADEResBlock.norm2
       SPADEResBlock.conv1 SPADEResBlock.conv2 SPADEResBlock.out_channels].
  rewrite (spade_shape_same _ _ _ _ cin _ _ sp Hsp).
  rewrite (conv_shape_same cin cout 3 1 true sp Hsp eq_refl).
  rewrite (spade_shape_same _ _ _ _ cout _ _ sp Hsp).
  rewrite (conv_shape_same cout cout 3 1 true sp Hsp eq_refl).
  destruct (cin =? cout) eqn:E; cbn [shortcut_forward Convolution_forward ShapeTorchWith].
  - apply Z.eqb_eq in E. subst cout. apply broadcast_same.
  - rewrite (conv_shape_same cin cout 1 0 true sp Hsp eq_refl).
    apply broadcast_same.
Qed.

Lemma attn_block_shape (sd : state_dict unit) (c : Z) (sp : list Z) :
  len sp = spatial_dims ->
  call_block (torch := shapes) (attn c) sd (Some (b :: c :: sp)) seg
  = Some (b :: c :: sp).
Proof.
  intros Hsp. simpl. now rewrite Z.eqb_refl, Hsp, Z.eqb_refl.
Qed.

Lemma upsample_block_shape (sd : state_dict unit) (c : Z) (sp : list Z) :
  len sp = spatial_dims ->
  call_block (torch := shapes) (SPADEDecoder.upsample_block spatial_dims c) sd
    (Some (b :: c :: sp)) seg
  = Some (b :: c :: map (fun d => d * 2) sp).
Proof.
  intros Hsp. unfold call_block, SPADEDecoder.upsample_block.
  cbn [Upsample_forward ShapeTorchWith]. unfold Upsample_shape.
  cbn [up_in_channels up_spatial_dims up_post_conv up_scale_factor].
  rewrite Z.eqb_refl, Hsp, Z.eqb_refl. cbn [andb].
  unfold SPADEDecoder.conv3.
  replace (map (fun d => Qfloor (inject_Z d * 2)) sp) with (map (fun d => d * 2) sp).
  - apply conv_shape_same; [now rewrite len_map | reflexivity].
  - apply map_ext. intros d. unfold Qfloor, inject_Z, Qmult. simpl.
    now rewrite Z.div_1_r.
Qed.

Lemma group_norm_shape (sd : state_dict unit) (c : Z) (sp : list Z) :
  call_block (torch := shapes) (SPADEDecoder.group_norm norm_num_groups norm_eps c) sd
    (Some (b :: c :: sp)) seg
  = Some (b :: c :: sp).
Proof. simpl. now rewrite Z.eqb_refl. Qed.

Lemma conv3_block_shape (sd : state_dict unit) (cin cout : Z) (sp : list Z) :
  len sp = spatial_dims ->
  call_block (torch := shapes) (MConvolution (SPADEDecoder.conv3 spatial_dims cin cout))
    sd (Some (b :: cin :: sp)) seg
  = Some (b :: cout :: sp).
Proof.
  intros Hsp. cbn [call_block Convolution_forward ShapeTorchWith].
  now apply conv_shape_same.
Qed.

Lemma res_run_shape (sd : state_dict unit) (n : nat) :
  forall (j first : nat) (cin w : Z) (a : bool) (sp : list Z),
    len sp = spatial_dims ->
    run_blocks (torch := shapes) j
      (res_run_from spatial_dims norm_num_groups norm_eps label_nc
         spade_intermediate_channels first cin w n a)
      sd (Some (b :: cin :: sp)) seg
    = Some (b :: match n with O => cin | S _ => w end :: sp).
Proof.
  induction n as [| n IH]; intros j first cin w a sp Hsp.
  - reflexivity.
  - rewrite res_run_from_S.
    cbn [app run_blocks]. rewrite (res_block_shape _ cin w sp Hsp).
    destruct a.
    + cbn [app run_blocks]. rewrite (attn_block_shape _ w sp Hsp).
      rewrite IH by exact Hsp. now destruct n.
    + cbn [app]. rewrite IH by exact Hsp. now destruct n.
Qed.

Variables (channels : list Z) (num_res_blocks : list Z) (attention_levels : list bool).

Hypothesis counts_positive :
  forall i : nat,
    (i < List.length channels)%nat -> (1 <= level_count num_res_blocks i)%nat.

Local Notation "'layout_of_level'" :=
  (level_layout spatial_dims channels num_res_blocks norm_num_groups norm_eps
     attention_levels label_nc spade_intermediate_channels).

Lemma level_shape (sd : state_dict unit) (j i : nat) (sp : list Z) :
  len sp = spatial_dims ->
  (i < List.length channels)%nat ->
  run_blocks (torch := shapes) j (layout_of_level i) sd
    (Some (b :: level_input_width channels i :: sp)) seg
  = Some (b :: level_width channels i
            :: (if is_last_level channels i then sp else map (fun d => d * 2) sp)).
Proof.
  intros Hsp Hi. unfold level_layout, res_run.
  rewrite run_blocks_app, res_run_shape by exact Hsp.
  unfold width_after. pose proof (counts_positive i Hi) as Hc.
  destruct (level_count num_res_blocks i) as [| n]; [lia |].
  destruct (is_last_level channels i).
  - reflexivity.
  - cbn [run_blocks]. now rewrite upsample_block_shape.
Qed.

Lemma levels_shape (sd : state_dict unit) (k : nat) :
  forall (i j : nat) (sp : list Z),
    len sp = spatial_dims ->
    (i + k < List.length channels)%nat ->
    run_blocks (torch := shapes) j (concat (map layout_of_level (seq i k))) sd
      (Some (b :: level_input_width channels i :: sp)) seg
    = Some (b :: level_input_width channels (i + k)
              :: map (fun d => d * 2 ^ Z.of_nat k) sp).
Proof.
  induction k as [| k IH]; intros i j sp Hsp Hik.
  - cbn [seq map concat run_blocks]. rewrite Nat.add_0_r.
    do 3 f_equal. symmetry. apply map_same. intros d. simpl. lia.
  - rewrite <- cons_seq. cbn [map concat].
    rewrite run_blocks_app, level_shape by (exact Hsp || lia).
    assert (Hlast : is_last_level channels i = false).
    { unfold is_last_level, len. apply Z.eqb_neq. lia. }
    rewrite Hlast.
    change (level_width channels i) with (level_input_width channels (S i)).
    rewrite IH by (rewrite ?len_map; (exact Hsp || lia)).
    rewrite Nat.add_succ_r, map_map. do 3 f_equal.
    apply map_ext. intros d.
    rewrite Nat2Z.inj_succ, Z.pow_succ_r by lia. ring.
Qed.

Lemma decoder_layout_shape (sd : state_dict unit) (j : nat) (in_channels out_channels : Z)
    (with_nonlocal_attn : bool) (sp : list Z) :
  channels <> [] ->
  len sp = spatial_dims ->
  run_blocks (torch := shapes) j
    (decoder_layout spatial_dims channels in_channels out_channels num_res_blocks
       norm_num_groups norm_eps attention_levels label_nc with_nonlocal_attn
       spade_intermediate_channels)
    sd (Some (b :: in_channels :: sp)) seg
  = Some (b :: out_channels
            :: map (fun d => d * 2 ^ Z.of_nat (List.length channels - 1)) sp).
Proof.
  intros Hne Hsp.
  assert (Hlen : exists m, List.length channels = S m).
  { destruct channels as [| c cs]; [contradiction | simpl; eauto]. }
  destruct Hlen as (m & Hm).
  unfold decoder_layout. rewrite Hm.
  replace (S m - 1)%nat with m by lia.
  rewrite seq_S, map_app, concat_app, Nat.add_0_l. cbn [map concat].
  rewrite app_nil_r.
  cbn [app run_blocks].
  rewrite conv3_block_shape by exact Hsp.
  rewrite !run_blocks_app.
  assert (Hnl : forall j',
    run_blocks (torch := shapes) j'
      (nonlocal_layout spatial_dims channels norm_num_groups norm_eps label_nc
         with_nonlocal_attn spade_intermediate_channels)
      sd (Some (b :: level_width channels 0 :: sp)) seg
    = Some (b :: level_width channels 0 :: sp)).
  { intros j'. unfold nonlocal_layout. destruct with_nonlocal_attn.
    - cbn [run_blocks].
      now rewrite res_block_shape, attn_block_shape, res_block_shape.
    - reflexivity. }
  rewrite Hnl.
  change (level_width channels 0) with (level_input_width channels 0).
  rewrite levels_shape by (exact Hsp || lia).
  rewrite Nat.add_0_l.
  rewrite level_shape by (rewrite ?len_map; (exact Hsp || lia)).
  assert (Hlast : is_last_level channels m = true).
  { unfold is_last_level, len. apply Z.eqb_eq. lia. }
  rewrite Hlast.
  assert (Hw : width_after channels num_res_blocks m = level_width channels m).
  { unfold width_after. pose proof (counts_positive m ltac:(lia)) as Hc.
    destruct (level_count num_res_blocks m); [lia | reflexivity]. }
  rewrite Hw. cbn [run_blocks]. rewrite group_norm_shape.
  now rewrite conv3_block_shape by (rewrite ?len_map; exact Hsp).
Qed.

End ShapeFacts.

Lemma validate_ok (num_res_blocks : int_or_seq) (channels : list Z)
    (attention_levels : list bool) (norm_num_groups : Z) (l : list Z) :
  SPADEAutoencoderKL.validate num_res_blocks channels attention_levels
    norm_num_groups = Ok l ->
  l = res_blocks_list num_res_blocks channels
  /\ List.length l = List.length channels
  /\ List.length attention_levels = List.length channels.
Proof.
  unfold SPADEAutoencoderKL.validate. intros H.
  apply bind_ok in H as (bad & _ & H).
  destruct bad; [discriminate H |].
  destruct (len channels =? len attention_levels) eqn:E2; [| discriminate H].
  fold (res_blocks_list num_res_blocks channels) in H.
  destruct (len (res_blocks_list num_res_blocks channels) =? len channels) eqn:E3;
    [| discriminate H].
  simpl in H. injection H as <-.
  apply len_eqb in E2. apply len_eqb in E3. now repeat split.
Qed.

Lemma counts_of_list (l : list Z) (i : nat) :
  Forall (fun n => 1 <= n) l ->
  (i < List.length l)%nat ->
  (1 <= level_count l i)%nat.
Proof.
  intros Hall Hi. unfold level_count.
  assert (Hin : In (nth i (rev l) 0) l).
  { apply in_rev. apply nth_In. now rewrite length_rev. }
  rewrite Forall_forall in Hall. specialize (Hall _ Hin). lia.
Qed.

Section ModelShapes.

Variables (spatial_dims label_nc in_channels out_channels : Z)
  (num_res_blocks : int_or_seq) (channels : list Z) (attention_levels : list bool)
  (latent_channels : Z) (norm_num_groups : Z) (norm_eps : Q)
  (with_encoder_nonlocal_attn with_decoder_nonlocal_attn : bool)
  (spade_intermediate_channels : Z).

Variables (self : SPADEAutoencoderKL.t) (B : Z) (sp seg_sp : list Z).

Hypothesis constructed :
  SPADEAutoencoderKL.init spatial_dims label_nc in_channels out_channels
    num_res_blocks channels attention_levels latent_channels norm_num_groups
    norm_eps with_encoder_nonlocal_attn with_decoder_nonlocal_attn
    spade_intermediate_channels = Ok self.

Hypothesis counts_positive :
  Forall (fun n => 1 <= n) (res_blocks_list num_res_blocks channels).

Hypothesis rank : len sp = spatial_dims.

Hypothesis seg_rank : len seg_sp = spatial_dims.

Local Notation "'up'" := (fun d => d * 2 ^ Z.of_nat (List.length channels - 1)).
Local Notation "'seg'" := (Some (B :: label_nc :: seg_sp)).
Local Notation "'latent'" := (Some (B :: latent_channels :: sp)).

Lemma decode_shape (encoder_shape : Encoder -> option Shape -> option Shape)
    (sd : state_dict unit) (g : unit) :
  decode (torch := ShapeTorchWith encoder_shape) self sd latent seg g
  = (Some (B :: out_channels :: map up sp), g).
Proof.
  pose proof constructed as H. unfold SPADEAutoencoderKL.init in H.
  apply bind_ok in H as (l & Hl & H).
  apply bind_ok in H as (d & Hd & H).
  injection H as <-.
  apply validate_ok in Hl as (-> & Hlen & Hat).
  apply init_blocks in Hd as (Hne & ->).
  unfold decode, ret, SPADEDecoder_forward. f_equal.
  cbn [SPADEAutoencoderKL.post_quant_conv SPADEAutoencoderKL.decoder
       SPADEDecoder.blocks Convolution_forward ShapeTorchWith].
  unfold SPADEAutoencoderKL.conv1x1.
  rewrite (conv_shape_same spatial_dims B latent_channels latent_channels 1 0 true
             sp rank eq_refl).
  apply decoder_layout_shape; try assumption.
  intros i Hi. apply counts_of_list; [exact counts_positive | lia].
Qed.

Lemma encode_shape (sd : state_dict unit) (g : unit) :
  encode (torch := ShapeTorch) self sd (Some (B :: in_channels :: map up sp)) g
  = (latent, latent, g).
Proof.
  pose proof constructed as H. unfold SPADEAutoencoderKL.init in H.
  apply bind_ok in H as (l & Hl & H).
  apply bind_ok in H as (d & Hd & H).
  injection H as <-.
  unfold encode, ret. f_equal.
  cbn [SPADEAutoencoderKL.encoder SPADEAutoencoderKL.quant_conv_mu
       SPADEAutoencoderKL.quant_conv_log_sigma Convolution_forward Encoder_forward
       torch_clamp torch_div torch_exp ShapeTorch ShapeTorchWith].
  unfold Encoder_shape.
  cbn [enc_in_channels enc_spatial_dims enc_out_channels enc_channels].
  rewrite Z.eqb_refl, len_map, rank, Z.eqb_refl. cbn [andb].
  rewrite map_map, (map_same _ sp) by (intros d0; apply iter_half).
  unfold SPADEAutoencoderKL.conv1x1.
  now rewrite (conv_shape_same spatial_dims B latent_channels latent_channels 1 0 true
                 sp rank eq_refl).
Qed.

(** C9, as amended. For a model that was constructed, with at least one
    residual block at every level, and an input [x] whose spatial sizes are
    [2 ^ (len(channels) - 1)] times those of the latent, with a segmentation
    of the same batch size, [label_nc] channels and as many spatial axes:
    the mean and sigma of [encode] have [latent_channels] channels, and
    [decode(encode(x)[0], seg)] has the batch size and the spatial shape of
    [x] and [out_channels] channels; so has the reconstruction of [forward]. *)
Theorem reconstruction_keeps_shape (g : unit) :
  let x := Some (B :: in_channels :: map up sp) in
  let z := fst (encode (torch := ShapeTorch) self no_params x g) in
  z = (latent, latent)
  /\ fst (decode (torch := ShapeTorch) self no_params (fst z) seg g)
     = Some (B :: out_channels :: map up sp)
  /\ fst (forward (torch := ShapeTorch) self no_params x seg g)
     = (Some (B :: out_channels :: map up sp), latent, latent).
Proof.
  intros x z. subst z x.
  rewrite encode_shape. cbn [fst snd].
  split; [reflexivity |].
  split.
  - unfold ShapeTorch. now rewrite decode_shape.
  - unfold forward, mbind. rewrite encode_shape. cbn [fst snd].
    unfold sampling, mbind, ret.
    cbn [torch_randn_like torch_add torch_mul ShapeTorch ShapeTorchWith].
    rewrite !broadcast_same. unfold ShapeTorch.
    now rewrite decode_shape.
Qed.

End ModelShapes.

(** The end-to-end scenario: channels (32, 64), two residual blocks a
    level, [x] of shape (1, 1, 64, 64) and [seg] of shape (1, 2, 64, 64). *)
Lemma reconstruction_keeps_shape_scenario :
  match SPADEAutoencoderKL.init 2 2 1 1 (AnInt 2) [32; 64] [false; false] 3 32
          default_norm_eps true true 128 with
  | Ok self =>
      fst (forward (torch := ShapeTorch) self no_params (Some [1; 1; 64; 64])
             (Some [1; 2; 64; 64]) tt)
      = (Some [1; 1; 64; 64], Some [1; 3; 32; 32], Some [1; 3; 32; 32])
  | Raise _ => False
  end.
Proof.
  destruct (SPADEAutoencoderKL.init 2 2 1 1 (AnInt 2) [32; 64] [false; false] 3 32
              default_norm_eps true true 128) as [self | e] eqn:E.
  - assert (Hc : Forall (fun n => 1 <= n) (res_blocks_list (AnInt 2) [32; 64])).
    { repeat constructor; lia. }
    exact (proj2 (proj2 (reconstruction_keeps_shape 2 2 1 1 (AnInt 2) [32; 64]
                           [false; false] 3 32 default_norm_eps true true 128
                           self 1 [32; 32] [64; 64] E Hc eq_refl eq_refl tt))).
  - vm_compute in E. discriminate E.
Defined.

(** C9, as stated, fails on its own scenario: with channels (32, 64) the
    decoder has one upsampling stage, so whatever the encoder returns, a
    mean of shape (1, 3, 16, 16) is decoded to (1, 1, 32, 32) and the
    reconstruction cannot be (1, 1, 64, 64). The general statement fails too:
    a level without residual blocks leaves the next level with the wrong
    number of channels, and an odd spatial size is not restored. *)
Lemma scenario_latent_is_not_16x16 :
  ~ (exists (encoder_shape : Encoder -> option Shape -> option Shape)
            (self : SPADEAutoencoderKL.t),
        SPADEAutoencoderKL.init 2 2 1 1 (AnInt 2) [32; 64] [false; false] 3 32
          default_norm_eps true true 128 = Ok self
        /\ fst (forward (torch := ShapeTorchWith encoder_shape) self no_params
                  (Some [1; 1; 64; 64]) (Some [1; 2; 64; 64]) tt)
           = (Some [1; 1; 64; 64], Some [1; 3; 16; 16], Some [1; 3; 16; 16]))
  /\ match SPADEAutoencoderKL.init 2 2 1 1 (ASeq [1; 0; 1]) [32; 64; 128]
             [false; false; false] 3 32 default_norm_eps true true 128 with
     | Ok self =>
         fst (reconstruct (torch := ShapeTorch) self no_params
                (Some [1; 1; 64; 64]) (Some [1; 2; 64; 64]) tt) = None
     | Raise _ => False
     end
  /\ match SPADEAutoencoderKL.init 2 2 1 1 (AnInt 2) [32; 64] [false; false] 3 32
             default_norm_eps true true 128 with
     | Ok self =>
         fst (reconstruct (torch := ShapeTorch) self no_params
                (Some [1; 1; 65; 65]) (Some [1; 2; 65; 65]) tt)
         = Some [1; 1; 64; 64]
     | Raise _ => False
     end.
Proof.
  split; [| split; vm_compute; reflexivity].
  intros (enc & self & Hinit & H).
  assert (Hc : Forall (fun n => 1 <= n) (res_blocks_list (AnInt 2) [32; 64])).
  { repeat constructor; lia. }
  pose proof (decode_shape 2 2 1 1 (AnInt 2) [32; 64] [false; false] 3 32
                default_norm_eps true true 128 self 1 [16; 16] [64; 64]
                Hinit Hc eq_refl eq_refl enc no_params tt) as D.
  unfold forward, mbind in H.
  destruct (encode (torch := ShapeTorchWith enc) self no_params
              (Some [1; 1; 64; 64]) tt) as [[m s] g1].
  cbn [fst snd] in H. unfold sampling, mbind, ret in H.
  cbn [torch_randn_like torch_add torch_mul ShapeTorchWith] in H.
  destruct g1.
  destruct (decode (torch := ShapeTorchWith enc) self no_params
              (broadcast m (broadcast s s)) (Some [1; 2; 64; 64]) tt)
    as [y g2] eqn:Dy.
  cbn [fst] in H. injection H as Hy Hm Hs. subst y m s.
  rewrite !broadcast_same in Dy.
  pose proof (eq_trans (eq_sym Dy) D) as F. vm_compute in F. discriminate F.
Qed.

(** ** Further properties *)

(** *** The methods of the top-level model *)

Section MethodFacts.

Context {Tensor : Type} {torch : Torch Tensor}.

(** X1. [forward] is the second-stage encoding followed by the second-stage
    decoding: its reconstruction is [decode_stage_2_outputs] at the sample
    [encode_stage_2_inputs] draws, its mean and sigma are those of [encode],
    and the generator is left as one [randn_like(sigma)] leaves it. *)
Theorem forward_is_stage_2_round_trip (self : SPADEAutoencoderKL.t)
    (sd : state_dict Params) (x seg : Tensor) (g : Generator) :
  let z_mu := fst (fst (encode self sd x g)) in
  let z_sigma := snd (fst (encode self sd x g)) in
  let z := fst (encode_stage_2_inputs self sd x g) in
  let g' := snd (encode_stage_2_inputs self sd x g) in
  forward self sd x seg g
  = (fst (decode_stage_2_outputs self sd z seg g'), z_mu, z_sigma, g')
  /\ z = torch_add z_mu (torch_mul (fst (torch_randn_like z_sigma g)) z_sigma)
  /\ g' = snd (torch_randn_like z_sigma g)
  /\ fst (decode_stage_2_outputs self sd z seg g') = fst (decode self sd z seg g).
Proof.
  intros z_mu z_sigma z g'. subst z_mu z_sigma z g'.
  unfold forward, encode_stage_2_inputs, decode_stage_2_outputs, sampling, mbind.
  unfold encode, decode, ret. cbn [fst snd].
  destruct (torch_randn_like _ g) as [eps g1]. cbn [fst snd].
  repeat split.
Qed.

End MethodFacts.

(** *** The latent statistics, over the reals *)

Lemma clamp_monotone (a b lo hi : R) :
  (a <= b)%R -> (clamp a lo hi <= clamp b lo hi)%R.
Proof.
  intros H. unfold clamp.
  apply Rle_min_compat_r. now apply Rle_max_compat_r.
Qed.

Lemma clamp_saturates_above (a b lo hi : R) :
  (lo <= hi)%R -> (hi <= a)%R -> (a <= b)%R -> clamp a lo hi = clamp b lo hi.
Proof.
  intros Hlh Ha Hab. unfold clamp, Rmin, Rmax.
  destruct (Rle_dec a lo), (Rle_dec b lo);
    repeat match goal with |- context [Rle_dec ?u ?v] => destruct (Rle_dec u v) end;
    lra.
Qed.

Lemma clamp_saturates_below (a b lo hi : R) :
  (lo <= hi)%R -> (b <= lo)%R -> (a <= b)%R -> clamp a lo hi = clamp b lo hi.
Proof.
  intros Hlh Hb Hab. unfold clamp, Rmin, Rmax.
  destruct (Rle_dec a lo), (Rle_dec b lo);
    repeat match goal with |- context [Rle_dec ?u ?v] => destruct (Rle_dec u v) end;
    lra.
Qed.

Section LatentFacts.

Variables (Pos P G : Type)
  (randn_like : RTensor Pos -> G -> RTensor Pos * G)
  (convolution : Convolution -> state_dict P -> RTensor Pos -> RTensor Pos)
  (spade : SPADE -> state_dict P -> RTensor Pos -> RTensor Pos -> RTensor Pos)
  (attention : SpatialAttentionBlock -> state_dict P -> RTensor Pos -> RTensor Pos)
  (upsample : Upsample -> state_dict P -> RTensor Pos -> RTensor Pos)
  (groupnorm : GroupNorm -> state_dict P -> RTensor Pos -> RTensor Pos)
  (encoder_net : Encoder -> state_dict P -> RTensor Pos -> RTensor Pos).

Local Notation "'real_torch'" :=
  (RealTorch randn_like convolution spade attention upsample groupnorm encoder_net).

Variables (self : SPADEAutoencoderKL.t) (sd : state_dict P).


Local Notation "'raw' x" := (raw_log_var convolution encoder_net self sd x)
  (at level 10, x at level 9).
Local Notation "'sigma_of' x g" :=
  (snd (fst (encode (torch := real_torch) self sd x g))) (at level 10, x, g at level 9).

(** X3. Sigma grows with the raw log-variance and saturates outside the
    clamp: a larger raw log-variance never gives a smaller sigma, and two
    raw values on the same side outside [-30, 20] give the same sigma. *)
Theorem sigma_monotone (x1 x2 : RTensor Pos) (g1 g2 : G) (p q : Pos) :
  (raw_log_var convolution encoder_net self sd x1 p
   <= raw_log_var convolution encoder_net self sd x2 q)%R ->
  (sigma_of x1 g1 p <= sigma_of x2 g2 q)%R
  /\ ((20 <= raw x1 p)%R -> sigma_of x1 g1 p = sigma_of x2 g2 q)
  /\ ((raw x2 q <= -30)%R -> sigma_of x1 g1 p = sigma_of x2 g2 q).
Proof.
  intros H.
  assert (Hs : forall x g r, sigma_of x g r = exp (clamp (raw x r) (-30) 20 / 2))
    by reflexivity.
  rewrite !Hs. split; [| split].
  - apply exp_le. pose proof (clamp_monotone _ _ (-30) 20 H). lra.
  - intros H1. f_equal. f_equal. apply clamp_saturates_above; lra.
  - intros H1. f_equal. f_equal. apply clamp_saturates_below; lra.
Qed.

End LatentFacts.

(** A substrate over one position whose modules are identities: the raw
    log-variance is the input itself. *)
Lemma sigma_monotone_identity_modules :
  match SPADEAutoencoderKL.init 2 2 1 1 (AnInt 2) [32; 64] [false; false] 3 32
          default_norm_eps true true 128 with
  | Ok self =>
      let torch :=
        RealTorch (Pos := unit) (P := unit) (G := unit)
          (fun t g => (t, g)) (fun _ _ t => t) (fun _ _ t _ => t) (fun _ _ t => t)
          (fun _ _ t => t) (fun _ _ t => t) (fun _ _ t => t) in
      (snd (fst (encode (torch := torch) self no_params (fun _ => 0%R) tt)) tt
       <= snd (fst (encode (torch := torch) self no_params (fun _ => 1%R) tt)) tt)%R
  | Raise _ => False
  end.
Proof.
  destruct (SPADEAutoencoderKL.init 2 2 1 1 (AnInt 2) [32; 64] [false; false] 3 32
              default_norm_eps true true 128) as [self | e] eqn:E.
  - apply (sigma_monotone unit unit unit (fun t g => (t, g)) (fun _ _ t => t)
             (fun _ _ t _ => t) (fun _ _ t => t) (fun _ _ t => t) (fun _ _ t => t)
             (fun _ _ t => t) self no_params (fun _ => 0%R) (fun _ => 1%R) tt tt tt tt).
    unfold raw_log_var. lra.
  - vm_compute in E. discriminate E.
Defined.

(** *** The checks of the constructor, one by one *)

Section CheckFacts.

Variables (spatial_dims label_nc in_channels out_channels : Z)
  (num_res_blocks : int_or_seq) (channels : list Z) (attention_levels : list bool)
  (latent_channels : Z) (norm_num_groups : Z) (norm_eps : Q)
  (with_encoder_nonlocal_attn with_decoder_nonlocal_attn : bool)
  (spade_intermediate_channels : Z).

Local Notation "'checks'" :=
  (SPADEAutoencoderKL.validate num_res_blocks channels attention_levels
     norm_num_groups).
Local Notation "'construction'" :=
  (SPADEAutoencoderKL.init spatial_dims label_nc in_channels out_channels
     num_res_blocks channels attention_levels latent_channels norm_num_groups
     norm_eps with_encoder_nonlocal_attn with_decoder_nonlocal_attn
     spade_intermediate_channels).
Local Notation "'nd'" := (not_divisible channels norm_num_groups).
Local Notation "'am'" := (attention_mismatch channels attention_levels).
Local Notation "'rm'" := (res_blocks_mismatch num_res_blocks channels).

(** X5. The checks are made in the order of the source, and the message of
    the [ValueError] names the first one that fails: the channel message
    whenever a channel is not a multiple of [norm_num_groups], the attention
    message when the channels pass and the lengths differ, the
    [num_res_blocks] message when only that length is wrong. *)
Theorem checks_in_order :
  norm_num_groups <> 0 ->
  (checks = Raise (ValueError msg_channels) <-> nd)
  /\ (checks = Raise (ValueError msg_attention) <-> ~ nd /\ am)
  /\ (checks = Raise (ValueError msg_res_blocks) <-> ~ nd /\ ~ am /\ rm)
  /\ (checks = Ok (res_blocks_list num_res_blocks channels)
      <-> ~ nd /\ ~ am /\ ~ rm).
Proof.
  intros Hg.
  assert (Hcases :
    (checks = Raise (ValueError msg_channels) /\ nd)
    \/ (checks = Raise (ValueError msg_attention) /\ ~ nd /\ am)
    \/ (checks = Raise (ValueError msg_res_blocks) /\ ~ nd /\ ~ am /\ rm)
    \/ (checks = Ok (res_blocks_list num_res_blocks channels)
        /\ ~ nd /\ ~ am /\ ~ rm)).
  { unfold SPADEAutoencoderKL.validate.
    destruct (any_not_multiple_spec channels norm_num_groups Hg)
      as [(-> & H1) | (-> & H1)]; simpl.
    { left. now split. }
    right.
    destruct (len channels =? len attention_levels) eqn:E2; simpl.
    2:{ left. split; [reflexivity |]. split; [exact H1 |].
        unfold attention_mismatch. intros H. apply len_eqb in H. congruence. }
    right. apply len_eqb in E2.
    assert (H2 : ~ am) by (unfold attention_mismatch; tauto).
    fold (res_blocks_list num_res_blocks channels).
    destruct (len (res_blocks_list num_res_blocks channels) =? len channels) eqn:E3;
      simpl.
    - right. apply len_eqb in E3. split; [reflexivity |].
      split; [exact H1 |]. split; [exact H2 |].
      unfold res_blocks_mismatch, res_blocks_list in *.
      destruct num_res_blocks; tauto.
    - left. split; [reflexivity |]. split; [exact H1 |]. split; [exact H2 |].
      unfold res_blocks_mismatch, res_blocks_list in *.
      destruct num_res_blocks as [n | l].
      + unfold ensure_tuple_rep, len in E3.
        rewrite repeat_length, Nat2Z.id, Z.eqb_refl in E3. discriminate E3.
      + intros H. apply len_eqb in H. congruence. }
  destruct Hcases as [(Hv & H) | [(Hv & H) | [(Hv & H) | (Hv & H)]]];
    rewrite Hv;
    (split; [| split; [| split]]);
    (split; intros H'; first [tauto | reflexivity | discriminate H' | exfalso; tauto]).
Qed.

(** X6. With [norm_num_groups = 0] and a non-empty [channels], construction
    raises a [ZeroDivisionError], from the first [out_channel % 0], whatever
    the other arguments. *)
Theorem zero_groups_divide_by_zero (c : Z) (rest : list Z) :
  SPADEAutoencoderKL.init spatial_dims label_nc in_channels out_channels
    num_res_blocks (c :: rest) attention_levels latent_channels 0 norm_eps
    with_encoder_nonlocal_attn with_decoder_nonlocal_attn
    spade_intermediate_channels
  = Raise ZeroDivisionError
  /\ SPADEAutoencoderKL.validate num_res_blocks (c :: rest) attention_levels 0
     = Raise ZeroDivisionError.
Proof.
  assert (H : SPADEAutoencoderKL.validate num_res_blocks (c :: rest)
                attention_levels 0 = Raise ZeroDivisionError) by reflexivity.
  split; [| exact H].
  unfold SPADEAutoencoderKL.init. now rewrite H.
Qed.

(** X7. An empty [channels] is never constructed, whatever the other
    arguments and whatever the imported constructors do: with a non-empty
    [attention_levels] or a non-empty sequence [num_res_blocks] a length
    check raises its [ValueError]; otherwise the checks pass, [Encoder] is
    called on the empty schedules, and construction raises what [Encoder]
    raises or, when [Encoder] returns, the [IndexError] of the decoder's
    [reversed_block_out_channels[0]]. *)
Theorem empty_channels_never_constructed (K : constructors) :
  let r := SPADEAutoencoderKL.init_with K spatial_dims label_nc in_channels
             out_channels num_res_blocks [] attention_levels latent_channels
             norm_num_groups norm_eps with_encoder_nonlocal_attn
             with_decoder_nonlocal_attn spade_intermediate_channels in
  let encoder_args := {|
    enc_spatial_dims := spatial_dims;
    enc_in_channels := in_channels;
    enc_channels := [];
    enc_out_channels := latent_channels;
    enc_num_res_blocks := [];
    enc_norm_num_groups := norm_num_groups;
    enc_norm_eps := norm_eps;
    enc_attention_levels := [];
    enc_with_nonlocal_attn := with_encoder_nonlocal_attn |} in
  (attention_levels <> [] -> r = Raise (ValueError msg_attention))
  /\ (attention_levels = [] -> res_blocks_list num_res_blocks [] <> [] ->
      r = Raise (ValueError msg_res_blocks))
  /\ (attention_levels = [] -> res_blocks_list num_res_blocks [] = [] ->
      forall e, Encoder_init K encoder_args = Raise e -> r = Raise e)
  /\ (attention_levels = [] -> res_blocks_list num_res_blocks [] = [] ->
      Encoder_init K encoder_args = Ok tt -> r = Raise IndexError)
  /\ raises r.
Proof.
  intros r encoder_args. subst r encoder_args.
  unfold SPADEAutoencoderKL.init_with, SPADEAutoencoderKL.validate.
  fold (res_blocks_list num_res_blocks []).
  cbn [any_not_multiple bind].
  destruct attention_levels as [| a al].
  - cbn [len List.length Z.of_nat Z.eqb negb].
    destruct (res_blocks_list num_res_blocks []) as [| n l] eqn:E.
    + cbn [len List.length Z.of_nat Z.eqb negb bind]. unfold construct.
      destruct (Encoder_init K _) as [[] | e0] eqn:Ee; cbn [bind].
      * repeat split; try congruence; try reflexivity.
        exists IndexError. reflexivity.
      * repeat split; try congruence.
        now exists e0.
    + assert (Hl : (len (n :: l) =? 0) = false).
      { unfold len. simpl List.length. apply Z.eqb_neq. lia. }
      rewrite Hl. cbn [negb bind].
      repeat split; try congruence; try reflexivity.
      eexists. reflexivity.
  - assert (Hl : (0 =? len (a :: al)) = false).
    { unfold len. simpl List.length. apply Z.eqb_neq. lia. }
    cbn [len List.length Z.of_nat] in *. rewrite Hl. cbn [negb bind].
    repeat split; try congruence; try reflexivity.
    eexists. reflexivity.
Qed.

(** X8. Every constructed model satisfies the invariant of the schedules:
    [channels] is non-empty, every channel is a multiple of
    [norm_num_groups], the three schedules have one length, and the encoder
    and the decoder are built from the same channels, attention levels and
    broadcast residual-block counts, the encoder ending and the decoder
    starting at [latent_channels]. *)
Theorem constructed_model_invariant (self : SPADEAutoencoderKL.t) :
  construction = Ok self ->
  let enc := SPADEAutoencoderKL.encoder self in
  let dec := SPADEAutoencoderKL.decoder self in
  channels <> []
  /\ (forall c, In c channels -> c mod norm_num_groups = 0)
  /\ List.length attention_levels = List.length channels
  /\ List.length (SPADEDecoder.num_res_blocks dec) = List.length channels
  /\ SPADEDecoder.num_res_blocks dec = res_blocks_list num_res_blocks channels
  /\ enc_num_res_blocks enc = SPADEDecoder.num_res_blocks dec
  /\ enc_channels enc = channels /\ SPADEDecoder.channels dec = channels
  /\ enc_attention_levels enc = attention_levels
  /\ SPADEDecoder.attention_levels dec = attention_levels
  /\ enc_norm_num_groups enc = SPADEDecoder.norm_num_groups dec
  /\ enc_out_channels enc = latent_channels
  /\ SPADEDecoder.in_channels dec = latent_channels
  /\ SPADEAutoencoderKL.latent_channels self = latent_channels.
Proof.
  intros H enc dec. subst enc dec.
  unfold SPADEAutoencoderKL.init in H.
  apply bind_ok in H as (l & Hl & H).
  apply bind_ok in H as (d & Hd & H).
  injection H as <-.
  apply init_blocks in Hd as (Hne & ->).
  pose proof Hl as Hv. apply validate_ok in Hv as (-> & Hlen & Hat).
  cbn [SPADEAutoencoderKL.encoder SPADEAutoencoderKL.decoder
       SPADEAutoencoderKL.latent_channels SPADEDecoder.num_res_blocks
       SPADEDecoder.channels SPADEDecoder.attention_levels
       SPADEDecoder.norm_num_groups SPADEDecoder.in_channels
       enc_num_res_blocks enc_channels enc_attention_levels enc_norm_num_groups
       enc_out_channels].
  assert (Hg : norm_num_groups <> 0).
  { intros ->. destruct channels as [| c cs]; [contradiction |].
    discriminate Hl. }
  assert (Hdiv : forall c, In c channels -> c mod norm_num_groups = 0).
  { intros c Hc.
    destruct (Z.eq_dec (c mod norm_num_groups) 0) as [E | E]; [exact E |].
    exfalso.
    destruct (validate_cases num_res_blocks channels attention_levels
                norm_num_groups Hg) as [((msg & Hv) & _) | (_ & Hno & _)].
    - congruence.
    - apply Hno. left. now exists c. }
  split; [exact Hne |]. split; [exact Hdiv |].
  split; [exact Hat |]. split; [exact Hlen |].
  repeat (split; [reflexivity |]). reflexivity.
Qed.

End CheckFacts.

(** The scenario with the channels (32, 50): the first check fails. *)
Lemma checks_in_order_scenario :
  SPADEAutoencoderKL.validate (ASeq [2; 2; 2]) [32; 50] [false] 32
  = Raise (ValueError msg_channels)
  /\ not_divisible [32; 50] 32.
Proof.
  assert (H : not_divisible [32; 50] 32).
  { exists 50. split; [simpl; tauto | discriminate]. }
  split; [| exact H].
  apply (proj1 (checks_in_order (ASeq [2; 2; 2]) [32; 50] [false] 32
                  ltac:(discriminate))).
  exact H.
Defined.

(** The model of the end-to-end scenario. *)
Lemma constructed_model_invariant_scenario :
  match SPADEAutoencoderKL.init 2 2 1 1 (AnInt 2) [32; 64] [false; false] 3 32
          default_norm_eps true true 128 with
  | Ok self =>
      SPADEDecoder.num_res_blocks (SPADEAutoencoderKL.decoder self) = [2; 2]
      /\ enc_num_res_blocks (SPADEAutoencoderKL.encoder self) = [2; 2]
  | Raise _ => False
  end.
Proof.
  destruct (SPADEAutoencoderKL.init 2 2 1 1 (AnInt 2) [32; 64] [false; false] 3 32
              default_norm_eps true true 128) as [self | e] eqn:E.
  - pose proof (constructed_model_invariant 2 2 1 1 (AnInt 2) [32; 64]
                  [false; false] 3 32 default_norm_eps true true 128 self E)
      as (_ & _ & _ & _ & H1 & H2 & _).
    split; [exact H1 | now rewrite H2, H1].
  - vm_compute in E. discriminate E.
Defined.

(** *** The decoder on its own *)

Lemma level_in_range_dec (num_res_blocks : list Z) (attention_levels : list bool)
    (i : nat) :
  {level_in_range num_res_blocks attention_levels i}
  + {~ level_in_range num_res_blocks attention_levels i}.
Proof.
  unfold level_in_range.
  destruct (lt_dec i (List.length num_res_blocks)) as [H1 | H1];
    [| right; tauto].
  destruct (lt_dec 0 (level_count num_res_blocks i)) as [H2 | H2];
    [| left; tauto].
  destruct (lt_dec i (List.length attention_levels)) as [H3 | H3];
    [left | right]; tauto.
Qed.

Lemma filter_all {A : Type} (f : A -> bool) (l : list A) :
  (forall x, In x l -> f x = true) -> filter f l = l.
Proof.
  induction l as [| x l IH]; intros H; simpl.
  - reflexivity.
  - rewrite (H x (or_introl eq_refl)). f_equal. apply IH.
    intros y Hy. apply H. now right.
Qed.

Lemma count_res_blocks_app (l1 l2 : list Module_) :
  count_res_blocks (l1 ++ l2) = (count_res_blocks l1 + count_res_blocks l2)%nat.
Proof.
  unfold count_res_blocks. now rewrite filter_app, length_app.
Qed.

Section DecoderFacts.

Variables (spatial_dims : Z) (channels : list Z) (in_channels out_channels : Z)
  (num_res_blocks : list Z) (norm_num_groups : Z) (norm_eps : Q)
  (attention_levels : list bool) (label_nc : Z) (with_nonlocal_attn : bool)
  (spade_intermediate_channels : Z).

Local Notation "'res_loop_body'" :=
  (SPADEDecoder.res_body spatial_dims norm_num_groups norm_eps label_nc
     spade_intermediate_channels (rev attention_levels)).
Local Notation "'level_loop_body'" :=
  (SPADEDecoder.level_body spatial_dims channels norm_num_groups norm_eps label_nc
     spade_intermediate_channels (rev channels) (rev attention_levels)
     (rev num_res_blocks)).
Local Notation "'layout_of_level'" :=
  (level_layout spatial_dims channels num_res_blocks norm_num_groups norm_eps
     attention_levels label_nc spade_intermediate_channels).
Local Notation "'new_decoder'" :=
  (SPADEDecoder.init spatial_dims channels in_channels out_channels num_res_blocks
     norm_num_groups norm_eps attention_levels label_nc with_nonlocal_attn
     spade_intermediate_channels).
Local Notation "'layout'" :=
  (decoder_layout spatial_dims channels in_channels out_channels num_res_blocks
     norm_num_groups norm_eps attention_levels label_nc with_nonlocal_attn
     spade_intermediate_channels).
Local Notation "'in_range'" := (level_in_range num_res_blocks attention_levels).

Lemma res_loop_raises (i n j : nat) (s : SPADEDecoder.locals) :
  SPADEDecoder.l_block_in_ch s <> None ->
  (List.length attention_levels <= i)%nat ->
  for_each (seq j (S n)) (res_loop_body i) s = Raise IndexError.
Proof.
  intros Hin Hi. rewrite <- cons_seq. simpl.
  unfold SPADEDecoder.res_body at 1, SPADEDecoder.read_block_in_ch.
  destruct (SPADEDecoder.l_block_in_ch s) as [c |]; [| contradiction].
  simpl. rewrite getitem_raises by (now rewrite length_rev). reflexivity.
Qed.

(** One level either goes through or raises an [IndexError]. *)
Lemma level_cases (i : nat) (s : SPADEDecoder.locals) :
  (i < List.length channels)%nat ->
  (in_range i /\ exists s', level_loop_body i s = Ok s')
  \/ (~ in_range i /\ level_loop_body i s = Raise IndexError).
Proof.
  intros Hc.
  destruct (level_in_range_dec num_res_blocks attention_levels i) as [Hr | Hr].
  - left. split; [exact Hr |]. destruct Hr as (Hn & Ha).
    unfold SPADEDecoder.level_body.
    rewrite (getitem_lt _ _ 0) by (now rewrite length_rev).
    rewrite (getitem_lt _ _ 0) by (now rewrite length_rev). simpl.
    unfold range. fold (level_count num_res_blocks i).
    destruct (level_count num_res_blocks i) as [| n] eqn:En.
    + simpl. destruct (negb _); simpl; eauto.
    + match goal with
      | |- context [for_each (seq 0 ?m) _ ?s0] =>
          destruct (res_loop_ok spatial_dims norm_num_groups norm_eps
                      attention_levels label_nc spade_intermediate_channels i m
                      (Ha ltac:(lia)) 0 s0)
            as (s1 & Hs1); [simpl; discriminate |];
          pose proof Hs1 as Hin;
          eapply res_loop in Hin as (_ & _ & Hin); [| reflexivity | reflexivity]
      end.
      rewrite Hs1. simpl.
      destruct (negb _); [| now exists s1].
      unfold SPADEDecoder.read_block_in_ch. rewrite Hin. simpl. eauto.
  - right. split; [exact Hr |].
    unfold SPADEDecoder.level_body.
    rewrite (getitem_lt _ _ 0) by (now rewrite length_rev). simpl.
    destruct (lt_dec i (List.length num_res_blocks)) as [Hn | Hn].
    + rewrite (getitem_lt _ _ 0) by (now rewrite length_rev). simpl.
      unfold range. fold (level_count num_res_blocks i).
      unfold level_in_range in Hr.
      destruct (level_count num_res_blocks i) as [| n] eqn:En; [lia |].
      rewrite res_loop_raises; [reflexivity | simpl; discriminate | lia].
    + rewrite getitem_raises by (rewrite length_rev; lia). reflexivity.
Qed.

(** The loop over the levels [i, i + k) goes through exactly when the
    lookups of each of them are in range, and raises an [IndexError]
    otherwise. *)
Lemma levels_cases (k : nat) :
  forall (i : nat) (s : SPADEDecoder.locals),
    (i + k <= List.length channels)%nat ->
    ((forall i', (i <= i' < i + k)%nat -> in_range i')
     /\ exists s', for_each (seq i k) level_loop_body s = Ok s')
    \/ ((exists i', (i <= i' < i + k)%nat /\ ~ in_range i')
        /\ for_each (seq i k) level_loop_body s = Raise IndexError).
Proof.
  induction k as [| k IH]; intros i s Hk.
  - left. split; [intros i' Hi'; lia | exists s; reflexivity].
  - rewrite <- cons_seq. simpl.
    destruct (level_cases i s ltac:(lia)) as [(Hr & s1 & ->) | (Hr & ->)]; simpl.
    + destruct (IH (S i) s1 ltac:(lia)) as [(Hall & s' & ->) | ((i' & Hi' & Hn) & ->)].
      * left. split; [| eauto].
        intros i' Hi'. destruct (Nat.eq_dec i' i) as [-> | Hne];
          [exact Hr | apply Hall; lia].
      * right. split; [| reflexivity]. exists i'. split; [lia | exact Hn].
    + right. split; [| reflexivity]. exists i. split; [lia | exact Hr].
Qed.

(** [SPADEDecoder.__init__] either returns, on schedules in range, or
    raises an [IndexError]. *)
Lemma init_cases :
  (schedules_in_range channels num_res_blocks attention_levels
   /\ exists d, new_decoder = Ok d)
  \/ (~ schedules_in_range channels num_res_blocks attention_levels
      /\ new_decoder = Raise IndexError).
Proof.
  unfold schedules_in_range, SPADEDecoder.init.
  destruct channels as [| c cs] eqn:Ec.
  - right. split; [intros (H & _); now apply H | reflexivity].
  - rewrite <- Ec.
    assert (Hlen : (0 < List.length channels)%nat) by (rewrite Ec; simpl; lia).
    assert (Hne : channels <> []) by (rewrite Ec; discriminate).
    rewrite (getitem_lt _ _ 0) by (now rewrite length_rev). simpl.
    unfold range, len. rewrite Nat2Z.id, length_rev.
    match goal with
    | |- context [for_each _ _ ?s0] =>
        destruct (levels_cases (List.length channels) 0 s0 ltac:(lia))
          as [(Hall & s & Hs) | ((i' & Hi' & Hn) & Hs)]
    end.
    + left. split; [split; [exact Hne | intros i Hi; apply Hall; lia] |].
      pose proof Hs as Hi.
      eapply levels_loop in Hi as (_ & _ & Hi); [| reflexivity].
      rewrite Hs. simpl. unfold SPADEDecoder.read_block_in_ch.
      rewrite (Hi Hlen). simpl. eauto.
    + right. split; [| now rewrite Hs].
      intros (_ & Hall). apply Hn. apply Hall. lia.
Qed.

(** X9. Called on its own, [SPADEDecoder.__init__] returns only on
    schedules in range: [channels] is non-empty, [num_res_blocks] has an
    entry for every level and [attention_levels] one for every level that
    has a residual block (the schedules being read from their last entry
    backwards). On any other schedules it raises, whatever the imported
    constructors do. *)
Theorem decoder_constructed_only_in_range (K : constructors) :
  (forall d,
     SPADEDecoder.init_with K spatial_dims channels in_channels out_channels
       num_res_blocks norm_num_groups norm_eps attention_levels label_nc
       with_nonlocal_attn spade_intermediate_channels = Ok d ->
     schedules_in_range channels num_res_blocks attention_levels)
  /\ (~ schedules_in_range channels num_res_blocks attention_levels ->
      raises
        (SPADEDecoder.init_with K spatial_dims channels in_channels out_channels
           num_res_blocks norm_num_groups norm_eps attention_levels label_nc
           with_nonlocal_attn spade_intermediate_channels)).
Proof.
  assert (Hok : forall d,
            SPADEDecoder.init_with K spatial_dims channels in_channels out_channels
              num_res_blocks norm_num_groups norm_eps attention_levels label_nc
              with_nonlocal_attn spade_intermediate_channels = Ok d ->
            schedules_in_range channels num_res_blocks attention_levels).
  { intros d Hd. apply decoder_init_with_ok in Hd.
    destruct init_cases as [(H & _) | (_ & H)]; [exact H | congruence]. }
  split; [exact Hok |].
  intros Hn.
  destruct (SPADEDecoder.init_with K spatial_dims channels in_channels out_channels
              num_res_blocks norm_num_groups norm_eps attention_levels label_nc
              with_nonlocal_attn spade_intermediate_channels) as [d | e] eqn:E.
  - exfalso. apply Hn. now apply (Hok d).
  - now exists e.
Qed.

Lemma count_res_blocks_res_run (n : nat) :
  forall (j : nat) (cin w : Z) (a : bool),
    count_res_blocks
      (res_run_from spatial_dims norm_num_groups norm_eps label_nc
         spade_intermediate_channels j cin w n a) = n.
Proof.
  induction n as [| n IH]; intros j cin w a.
  - reflexivity.
  - rewrite res_run_from_S, count_res_blocks_app, IH. now destruct a.
Qed.

Lemma count_res_blocks_levels (k : nat) :
  forall i : nat,
    count_res_blocks (concat (map layout_of_level (seq i k)))
    = list_sum (map (level_count num_res_blocks) (seq i k)).
Proof.
  induction k as [| k IH]; intros i.
  - reflexivity.
  - rewrite <- cons_seq. simpl. rewrite count_res_blocks_app, IH.
    unfold level_layout at 1, res_run.
    rewrite count_res_blocks_app, count_res_blocks_res_run.
    destruct (is_last_level channels i);
      match goal with
      | |- (_ + count_res_blocks ?l + _)%nat = _ =>
          replace (count_res_blocks l) with 0%nat by reflexivity
      end; lia.
Qed.

Lemma non_last_levels :
  channels <> [] ->
  filter (fun i => negb (is_last_level channels i)) (seq 0 (List.length channels))
  = seq 0 (List.length channels - 1).
Proof.
  intros Hne.
  destruct (List.length channels) as [| m] eqn:E.
  { destruct channels; [contradiction | discriminate E]. }
  replace (S m - 1)%nat with m by lia.
  rewrite seq_S, filter_app, Nat.add_0_l.
  assert (Hlast : is_last_level channels m = true).
  { unfold is_last_level, len. rewrite E. apply Z.eqb_eq. lia. }
  simpl. rewrite Hlast. simpl. rewrite app_nil_r.
  apply filter_all. intros i Hi. apply in_seq in Hi.
  unfold is_last_level, len. rewrite E.
  apply negb_true_iff, Z.eqb_neq. lia.
Qed.

Lemma layout_census :
  channels <> [] ->
  List.length (upsample_widths layout) = (List.length channels - 1)%nat
  /\ count_res_blocks layout
     = ((if with_nonlocal_attn then 2 else 0)
        + list_sum (map (level_count num_res_blocks)
                      (seq 0 (List.length channels))))%nat.
Proof.
  intros Hne. split.
  - rewrite upsample_widths_layout, length_map, non_last_levels by exact Hne.
    apply length_seq.
  - unfold decoder_layout.
    rewrite !count_res_blocks_app, count_res_blocks_levels.
    assert (Hnl : count_res_blocks
                    (nonlocal_layout spatial_dims channels norm_num_groups norm_eps
                       label_nc with_nonlocal_attn spade_intermediate_channels)
                  = if with_nonlocal_attn then 2%nat else 0%nat).
    { unfold nonlocal_layout. now destruct with_nonlocal_attn. }
    rewrite Hnl.
    match goal with
    | |- (count_res_blocks ?l1 + (_ + (_ + count_res_blocks ?l2)))%nat = _ =>
        replace (count_res_blocks l1) with 0%nat by reflexivity;
        replace (count_res_blocks l2) with 0%nat by reflexivity
    end.
    lia.
Qed.

(** X10. The census of a constructed decoder: it has exactly
    [len(channels) - 1] upsampling stages, whatever the other schedules, and
    as many residual blocks as the levels ask for, plus the two of the
    non-local stage when that is enabled. *)
Theorem decoder_census (d : SPADEDecoder.t) :
  new_decoder = Ok d ->
  List.length (upsample_widths (SPADEDecoder.blocks d))
  = (List.length channels - 1)%nat
  /\ count_res_blocks (SPADEDecoder.blocks d)
     = ((if with_nonlocal_attn then 2 else 0)
        + list_sum (map (level_count num_res_blocks)
                      (seq 0 (List.length channels))))%nat.
Proof.
  intros H. apply init_blocks in H as (Hne & ->). simpl SPADEDecoder.blocks.
  now apply layout_census.
Qed.

Lemma norms_fit_res_run (n : nat) :
  forall (j : nat) (cin w : Z) (a : bool),
    Forall norms_fit
      (res_run_from spatial_dims norm_num_groups norm_eps label_nc
         spade_intermediate_channels j cin w n a).
Proof.
  induction n as [| n IH]; intros j cin w a.
  - constructor.
  - rewrite res_run_from_S. apply Forall_app. split; [| apply IH].
    destruct a; repeat constructor.
Qed.

Lemma norms_fit_levels (k : nat) :
  forall i : nat, Forall norms_fit (concat (map layout_of_level (seq i k))).
Proof.
  induction k as [| k IH]; intros i.
  - constructor.
  - rewrite <- cons_seq. simpl. apply Forall_app. split; [| apply IH].
    unfold level_layout, res_run. apply Forall_app. split.
    + apply norms_fit_res_run.
    + destruct (is_last_level channels i); repeat constructor.
Qed.

(** X11. In a constructed decoder every residual block has both SPADE
    normalisations built for the channels they receive: the decoder always
    passes an explicit [out_channels], so [norm2] never gets [None]. *)
Theorem decoder_norms_fit (d : SPADEDecoder.t) :
  new_decoder = Ok d ->
  Forall norms_fit (SPADEDecoder.blocks d)
  /\ (forall b, In (MSPADEResBlock b) (SPADEDecoder.blocks d) ->
        spade_norm_nc (SPADEResBlock.norm2 b) <> None).
Proof.
  intros H. apply init_blocks in H as (_ & ->). simpl SPADEDecoder.blocks.
  assert (Hall : Forall norms_fit layout).
  { unfold decoder_layout. repeat (apply Forall_app; split).
    - repeat constructor.
    - unfold nonlocal_layout. destruct with_nonlocal_attn; repeat constructor.
    - apply norms_fit_levels.
    - repeat constructor. }
  split; [exact Hall |].
  intros b Hb. rewrite Forall_forall in Hall. specialize (Hall _ Hb).
  simpl in Hall. destruct Hall as (_ & ->). discriminate.
Qed.

End DecoderFacts.

(** The decoder of the default model. *)
Lemma decoder_census_default :
  exists d,
    SPADEDecoder.init 2 [32; 64; 64; 64] 3 1 [2; 2; 2; 2] 32 default_norm_eps
      [false; false; true; true] 2 true 128 = Ok d
    /\ List.length (upsample_widths (SPADEDecoder.blocks d)) = 3%nat
    /\ count_res_blocks (SPADEDecoder.blocks d) = 10%nat.
Proof.
  destruct (init_returns 2 [32; 64; 64; 64] 3 1 [2; 2; 2; 2] 32 default_norm_eps
              [false; false; true; true] 2 true 128) as (d & Hd);
    [discriminate | reflexivity | reflexivity |].
  exists d. split; [exact Hd |].
  exact (decoder_census 2 [32; 64; 64; 64] 3 1 [2; 2; 2; 2] 32 default_norm_eps
           [false; false; true; true] 2 true 128 d Hd).
Defined.

Lemma decoder_norms_fit_default :
  exists d,
    SPADEDecoder.init 2 [32; 64; 64; 64] 3 1 [2; 2; 2; 2] 32 default_norm_eps
      [false; false; true; true] 2 true 128 = Ok d
    /\ Forall norms_fit (SPADEDecoder.blocks d).
Proof.
  destruct (init_returns 2 [32; 64; 64; 64] 3 1 [2; 2; 2; 2] 32 default_norm_eps
              [false; false; true; true] 2 true 128) as (d & Hd);
    [discriminate | reflexivity | reflexivity |].
  exists d. split; [exact Hd |].
  exact (proj1 (decoder_norms_fit 2 [32; 64; 64; 64] 3 1 [2; 2; 2; 2] 32
                  default_norm_eps [false; false; true; true] 2 true 128 d Hd)).
Defined.

(** *** Surplus schedule entries *)

Lemma getitem_surplus {A : Type} (more l : list A) (i : nat) :
  (i < List.length l)%nat -> getitem (rev (more ++ l)) i = getitem (rev l) i.
Proof.
  intros H. unfold getitem. rewrite rev_app_distr, nth_error_app1; [reflexivity |].
  now rewrite length_rev.
Qed.

Section Surplus.

Variables (K : constructors) (spatial_dims : Z) (channels : list Z)
  (in_channels out_channels : Z) (num_res_blocks : list Z) (norm_num_groups : Z)
  (norm_eps : Q) (attention_levels : list bool) (label_nc : Z)
  (with_nonlocal_attn : bool) (spade_intermediate_channels : Z).

Variables (more_res_blocks : list Z) (more_attention_levels : list bool).

Hypothesis res_blocks_length :
  (List.length channels <= List.length num_res_blocks)%nat.

Hypothesis attention_length :
  (List.length channels <= List.length attention_levels)%nat.

Lemma level_body_surplus (i : nat) (s : SPADEDecoder.locals) :
  In i (range (len (rev channels))) ->
  SPADEDecoder.level_body_with K spatial_dims channels norm_num_groups norm_eps
    label_nc spade_intermediate_channels (rev channels)
    (rev (more_attention_levels ++ attention_levels))
    (rev (more_res_blocks ++ num_res_blocks)) i s
  = SPADEDecoder.level_body_with K spatial_dims channels norm_num_groups norm_eps
      label_nc spade_intermediate_channels (rev channels) (rev attention_levels)
      (rev num_res_blocks) i s.
Proof.
  intros Hi. unfold range, len in Hi. rewrite Nat2Z.id, length_rev in Hi.
  apply in_seq in Hi.
  unfold SPADEDecoder.level_body_with.
  rewrite getitem_surplus by lia.
  destruct (getitem (rev channels) i) as [w | e]; cbn [bind]; [| reflexivity].
  destruct (getitem (rev num_res_blocks) i) as [n | e]; cbn [bind]; [| reflexivity].
  rewrite (for_each_ext (range n)
             (SPADEDecoder.res_body_with K spatial_dims norm_num_groups norm_eps
                label_nc spade_intermediate_channels
                (rev (more_attention_levels ++ attention_levels)) i)
             (SPADEDecoder.res_body_with K spatial_dims norm_num_groups norm_eps
                label_nc spade_intermediate_channels (rev attention_levels) i));
    [reflexivity |].
  intros x s0 _. unfold SPADEDecoder.res_body_with.
  now rewrite getitem_surplus by lia.
Qed.

(** X13. [SPADEDecoder.__init__] reads its schedules from their last entry
    backwards, so leading entries of [num_res_blocks] and
    [attention_levels] beyond the levels of [channels] are ignored: with
    and without them the construction has the same outcome, the same
    exception or a decoder of the same blocks, whatever the imported
    constructors do. *)
Theorem surplus_entries_ignored :
  match
    SPADEDecoder.init_with K spatial_dims channels in_channels out_channels
      (more_res_blocks ++ num_res_blocks) norm_num_groups norm_eps
      (more_attention_levels ++ attention_levels) label_nc with_nonlocal_attn
      spade_intermediate_channels,
    SPADEDecoder.init_with K spatial_dims channels in_channels out_channels
      num_res_blocks norm_num_groups norm_eps attention_levels label_nc
      with_nonlocal_attn spade_intermediate_channels
  with
  | Ok d', Ok d => SPADEDecoder.blocks d' = SPADEDecoder.blocks d
  | Raise e', Raise e => e' = e
  | _, _ => False
  end.
Proof.
  unfold SPADEDecoder.init_with.
  destruct (getitem (rev channels) 0) as [c0 | e]; cbn [bind]; [| reflexivity].
  destruct (construct (Convolution_init K) _) as [ci | e]; cbn [bind];
    [| reflexivity].
  match goal with
  | |- context [bind ?c _] =>
      match c with
      | (if with_nonlocal_attn then _ else _) =>
          destruct c as [blocks | e]; cbn [bind]; [| reflexivity]
      end
  end.
  rewrite (for_each_ext _ _ _ (fun i s Hi => level_body_surplus i s Hi)).
  destruct (for_each _ _ _) as [s | e]; cbn [bind]; [| reflexivity].
  destruct (SPADEDecoder.read_block_in_ch s) as [c | e]; cbn [bind];
    [| reflexivity].
  destruct (SPADEDecoder.group_norm_with K norm_num_groups norm_eps c)
    as [g | e]; cbn [bind]; [| reflexivity].
  destruct (construct (Convolution_init K) _) as [co | e]; cbn [bind];
    reflexivity.
Qed.

End Surplus.

Lemma surplus_entries_ignored_example :
  exists d d',
    SPADEDecoder.init_with accepting 2 [32; 64] 3 1 [2; 2] 32 default_norm_eps
      [false; true] 2 true 128 = Ok d
    /\ SPADEDecoder.init_with accepting 2 [32; 64] 3 1 ([7; 0] ++ [2; 2]) 32
         default_norm_eps ([true] ++ [false; true]) 2 true 128 = Ok d'
    /\ SPADEDecoder.blocks d' = SPADEDecoder.blocks d.
Proof.
  pose proof (surplus_entries_ignored accepting 2 [32; 64] 3 1 [2; 2] 32
                default_norm_eps [false; true] 2 true 128 [7; 0] [true]
                ltac:(simpl; lia) ltac:(simpl; lia)) as H.
  destruct (init_returns 2 [32; 64] 3 1 [2; 2] 32 default_norm_eps [false; true] 2
              true 128) as (d & Hd); [discriminate | reflexivity | reflexivity |].
  rewrite <- decoder_init_with_accepting in Hd. rewrite Hd in H.
  destruct (SPADEDecoder.init_with accepting 2 [32; 64] 3 1 ([7; 0] ++ [2; 2]) 32
              default_norm_eps ([true] ++ [false; true]) 2 true 128)
    as [d' | e]; [| contradiction].
  exists d, d'. split; [exact Hd |]. split; [reflexivity | exact H].
Defined.

(** *** The shape of what the decoder returns *)

Section DecoderShape.

Variables (spatial_dims : Z) (channels : list Z) (in_channels out_channels : Z)
  (num_res_blocks : list Z) (norm_num_groups : Z) (norm_eps : Q)
  (attention_levels : list bool) (label_nc : Z) (with_nonlocal_attn : bool)
  (spade_intermediate_channels : Z).

Variables (d : SPADEDecoder.t) (B : Z) (sp seg_sp : list Z).

Hypothesis constructed :
  SPADEDecoder.init spatial_dims channels in_channels out_channels num_res_blocks
    norm_num_groups norm_eps attention_levels label_nc with_nonlocal_attn
    spade_intermediate_channels = Ok d.

Hypothesis counts_positive : Forall (fun n => 1 <= n) num_res_blocks.

Hypothesis rank : len sp = spatial_dims.

Hypothesis seg_rank : len seg_sp = spatial_dims.

(** X12. With the shape contracts of the imported blocks, a constructed
    decoder with at least one residual block at every level takes a latent
    of shape B x in_channels x spatial, with a segmentation of B x label_nc
    and as many spatial axes, to B x out_channels x spatial', every spatial
    size being multiplied by [2 ^ (len(channels) - 1)]: one doubling for
    every level but the last. *)
Theorem decoder_forward_shape
    (encoder_shape : Encoder -> option Shape -> option Shape)
    (sd : state_dict unit) :
  SPADEDecoder_forward (torch := ShapeTorchWith encoder_shape) d sd
    (Some (B :: in_channels :: sp)) (Some (B :: label_nc :: seg_sp))
  = Some (B :: out_channels
            :: map (fun x => x * 2 ^ Z.of_nat (List.length channels - 1)) sp).
Proof.
  pose proof constructed as H.
  destruct (init_cases spatial_dims channels in_channels out_channels
              num_res_blocks norm_num_groups norm_eps attention_levels label_nc
              with_nonlocal_attn spade_intermediate_channels)
    as [((_ & Hr) & _) | (_ & Hn)]; [| congruence].
  apply init_blocks in H as (Hne & ->).
  unfold SPADEDecoder_forward. simpl SPADEDecoder.blocks.
  apply decoder_layout_shape; try assumption.
  intros i Hi. apply counts_of_list; [exact counts_positive |].
  now destruct (Hr i Hi).
Qed.

End DecoderShape.

(** The default decoder on a 16 x 16 latent: three doublings. *)
Lemma decoder_forward_shape_default :
  exists d,
    SPADEDecoder.init 2 [32; 64; 64; 64] 3 1 [2; 2; 2; 2] 32 default_norm_eps
      [false; false; true; true] 2 true 128 = Ok d
    /\ SPADEDecoder_forward (torch := ShapeTorch) d no_params
         (Some [1; 3; 16; 16]) (Some [1; 2; 128; 128])
       = Some [1; 1; 128; 128].
Proof.
  destruct (init_returns 2 [32; 64; 64; 64] 3 1 [2; 2; 2; 2] 32 default_norm_eps
              [false; false; true; true] 2 true 128) as (d & Hd);
    [discriminate | reflexivity | reflexivity |].
  exists d. split; [exact Hd |].
  apply (decoder_forward_shape 2 [32; 64; 64; 64] 3 1 [2; 2; 2; 2] 32
           default_norm_eps [false; false; true; true] 2 true 128 d 1 [16; 16]
           [128; 128] Hd);
    [repeat constructor; lia | reflexivity | reflexivity].
Defined.

(** *** A single count of residual blocks *)

Lemma list_sum_constant (c : nat) (l : list nat) (f : nat -> nat) :
  (forall i, In i l -> f i = c) ->
  list_sum (map f l) = (List.length l * c)%nat.
Proof.
  induction l as [| i l IH]; intros H; simpl.
  - reflexivity.
  - rewrite (H i (or_introl eq_refl)), IH; [reflexivity |].
    intros j Hj. apply H. now right.
Qed.

Lemma level_count_repeat (n : Z) (m i : nat) :
  (i < m)%nat -> level_count (repeat n m) i = Z.to_nat n.
Proof.
  intros H. unfold level_count. f_equal.
  apply (repeat_spec m n). apply in_rev.
  apply nth_In. now rewrite length_rev, repeat_length.
Qed.

Section Broadcast.

Variables (spatial_dims label_nc in_channels out_channels : Z)
  (n : Z) (channels : list Z) (attention_levels : list bool)
  (latent_channels : Z) (norm_num_groups : Z) (norm_eps : Q)
  (with_encoder_nonlocal_attn with_decoder_nonlocal_attn : bool)
  (spade_intermediate_channels : Z).

(** X14. A single integer [num_res_blocks = n] gives every level of the
    decoder [n] residual blocks: the decoder of the constructed model has
    [len(channels) * n] of them, plus the two of the non-local stage when
    enabled, and [len(channels) - 1] upsampling stages; the encoder is
    handed the same [n] for every level. *)
Theorem single_count_is_per_level (self : SPADEAutoencoderKL.t) :
  SPADEAutoencoderKL.init spatial_dims label_nc in_channels out_channels (AnInt n)
    channels attention_levels latent_channels norm_num_groups norm_eps
    with_encoder_nonlocal_attn with_decoder_nonlocal_attn
    spade_intermediate_channels = Ok self ->
  let blocks := SPADEDecoder.blocks (SPADEAutoencoderKL.decoder self) in
  count_res_blocks blocks
  = ((if with_decoder_nonlocal_attn then 2 else 0)
     + List.length channels * Z.to_nat n)%nat
  /\ List.length (upsample_widths blocks) = (List.length channels - 1)%nat
  /\ enc_num_res_blocks (SPADEAutoencoderKL.encoder self)
     = repeat n (List.length channels).
Proof.
  intros H blocks. subst blocks.
  unfold SPADEAutoencoderKL.init in H.
  apply bind_ok in H as (l & Hl & H).
  apply bind_ok in H as (d & Hd & H).
  injection H as <-.
  apply validate_ok in Hl as (-> & _ & _).
  apply init_blocks in Hd as (Hne & ->).
  cbn [SPADEAutoencoderKL.decoder SPADEAutoencoderKL.encoder SPADEDecoder.blocks
       enc_num_res_blocks res_blocks_list].
  unfold ensure_tuple_rep, len. rewrite Nat2Z.id.
  destruct (layout_census spatial_dims channels latent_channels out_channels
              (repeat n (List.length channels)) norm_num_groups norm_eps
              attention_levels label_nc with_decoder_nonlocal_attn
              spade_intermediate_channels Hne) as (Hu & Hc).
  split; [| split; [exact Hu | reflexivity]].
  rewrite Hc. f_equal.
  rewrite (list_sum_constant (Z.to_nat n)), length_seq; [reflexivity |].
  intros i Hi. apply in_seq in Hi. apply level_count_repeat. lia.
Qed.

End Broadcast.

(** The model of the end-to-end scenario: two levels of two blocks, and the
    non-local stage. *)
Lemma single_count_is_per_level_scenario :
  match SPADEAutoencoderKL.init 2 2 1 1 (AnInt 2) [32; 64] [false; false] 3 32
          default_norm_eps true true 128 with
  | Ok self =>
      count_res_blocks (SPADEDecoder.blocks (SPADEAutoencoderKL.decoder self))
      = 6%nat
  | Raise _ => False
  end.
Proof.
  destruct (SPADEAutoencoderKL.init 2 2 1 1 (AnInt 2) [32; 64] [false; false] 3 32
              default_norm_eps true true 128) as [self | e] eqn:E.
  - exact (proj1 (single_count_is_per_level 2 2 1 1 2 [32; 64] [false; false] 3
                    32 default_norm_eps true true 128 self E)).
  - vm_compute in E. discriminate E.
Defined.
